(** * by_isp_coverage.validators: address normalisation

    A shallow embedding of [by_isp_coverage/validators.py]: the field
    strategies of [ConnectionValidator], the generator pipeline of
    [validate_connections] and the [Toponym] parser, followed by the
    properties stated about them.

    Conventions.
    - A Python [str] is a list of Unicode code points ([pystr]).  Literals
      are written [u "..."], decoded from the UTF-8 bytes of the source text.
    - Exception classes and the group names of a pattern are [string]s.
    - [Connection] objects live in a store ([heap]); a Python reference is an
      index into it, so that aliasing and in-place mutation are visible. *)

From Stdlib Require Import String Ascii List NArith Arith Bool Lia Sorted.
Import ListNotations.

Set Implicit Arguments.

(** ** Python strings *)

Definition cp := N.
Bind Scope N_scope with cp.
Definition pystr := list cp.

Module Utf8.

Definition cont (b : N) : N := (b mod 64)%N.

(** Decoder for well-formed UTF-8; a truncated sequence ends the text. *)
Fixpoint decode (bs : list N) : pystr :=
  match bs with
  | [] => []
  | b :: r =>
      if (b <? 128)%N then b :: decode r
      else if (b <? 224)%N then
        match r with
        | b1 :: r1 => ((b mod 32) * 64 + cont b1)%N :: decode r1
        | _ => []
        end
      else if (b <? 240)%N then
        match r with
        | b1 :: b2 :: r2 =>
            ((b mod 16) * 4096 + cont b1 * 64 + cont b2)%N :: decode r2
        | _ => []
        end
      else
        match r with
        | b1 :: b2 :: b3 :: r3 =>
            ((b mod 8) * 262144 + cont b1 * 4096 + cont b2 * 64 + cont b3)%N
              :: decode r3
        | _ => []
        end
  end.

Definition bytes (s : string) : list N :=
  map N_of_ascii (list_ascii_of_string s).

End Utf8.

Definition u (s : string) : pystr := Utf8.decode (Utf8.bytes s).

Definition cp_eqb (a b : cp) : bool := (a =? b)%N.

Fixpoint str_eqb (a b : pystr) : bool :=
  match a, b with
  | [], [] => true
  | x :: a', y :: b' => cp_eqb x y && str_eqb a' b'
  | _, _ => false
  end.

(** [s.startswith(p)] *)
Fixpoint startswith (p s : pystr) : bool :=
  match p, s with
  | [], _ => true
  | x :: p', y :: s' => cp_eqb x y && startswith p' s'
  | _ :: _, [] => false
  end.

(** [sub in s] *)
Fixpoint str_in (sub s : pystr) : bool :=
  startswith sub s ||
  match s with
  | [] => false
  | _ :: s' => str_in sub s'
  end.

(** [s.endswith(p)] *)
Definition endswith (p s : pystr) : bool :=
  startswith (rev p) (rev s).

(** [s[a:b]] for [0 <= a <= b]. *)
Definition slice (s : pystr) (a b : nat) : pystr :=
  firstn (b - a) (skipn a s).

(** [s.replace(old, new)]: occurrences are found left to right and do not
    overlap.  [skip] counts the characters of the current occurrence still
    to be passed over. *)
Fixpoint replace_from (old new : pystr) (skip : nat) (s : pystr) : pystr :=
  match s with
  | [] => []
  | c :: s' =>
      match skip with
      | S k => replace_from old new k s'
      | O =>
          if startswith old s
          then new ++ replace_from old new (length old - 1) s'
          else c :: replace_from old new 0 s'
      end
  end.

Definition str_replace (old new s : pystr) : pystr :=
  match old with
  | [] => new ++ flat_map (fun c => c :: new) s
  | _ :: _ => replace_from old new 0 s
  end.

(** [s.split(sep)] for a one-character separator: the result always has one
    more element than there are separators in [s]. *)
Fixpoint str_split (sep : cp) (s : pystr) : list pystr :=
  match s with
  | [] => [[]]
  | c :: s' =>
      if cp_eqb c sep then [] :: str_split sep s'
      else
        match str_split sep s' with
        | seg :: segs => (c :: seg) :: segs
        | [] => [[c]]
        end
  end.

Fixpoint lstrip (sp : cp -> bool) (s : pystr) : pystr :=
  match s with
  | c :: s' => if sp c then lstrip sp s' else s
  | [] => []
  end.

Definition rstrip (sp : cp -> bool) (s : pystr) : pystr :=
  rev (lstrip sp (rev s)).

Definition is_empty (s : pystr) : bool :=
  match s with [] => true | _ :: _ => false end.

(** ** The character database

    [str.isdecimal], [str.strip], [str.lower] and [str.title] consult
    CPython's Unicode tables; [\d], [\w], [\s] and [IGNORECASE] consult the
    tables of the [regex] package.  Neither belongs to the repository, so the
    development is parametric in them.  The three laws record how the tables
    behave on Basic Latin. *)

Definition ascii_digit (c : cp) : bool := ((48 <=? c) && (c <=? 57))%N.
Definition ascii_lower (c : cp) : cp :=
  if ((65 <=? c) && (c <=? 90))%N then (c + 32)%N else c.

Class Unicode := {
  chr_isdecimal : cp -> bool;
  chr_isspace : cp -> bool;
  str_lower : pystr -> pystr;
  str_title : pystr -> pystr;
  re_digit : cp -> bool;
  re_word : cp -> bool;
  re_space : cp -> bool;
  re_same_nocase : cp -> cp -> bool;
  isdecimal_ascii : forall c, (c < 128)%N -> chr_isdecimal c = ascii_digit c;
  re_digit_ascii : forall c, (c < 128)%N -> re_digit c = ascii_digit c;
  lower_ascii : forall s,
      Forall (fun c => (c < 128)%N) s -> str_lower s = map ascii_lower s
}.

(** The tables restricted to Basic Latin and the Cyrillic letters
    U+0400..U+045F, which is all the repository's data and tests use. *)
Module Ucd.

Definition between (lo hi c : cp) : bool := ((lo <=? c) && (c <=? hi))%N.

Definition lower (c : cp) : cp :=
  if between 65 90 c then (c + 32)%N
  else if between 1040 1071 c then (c + 32)%N
  else if between 1024 1039 c then (c + 80)%N
  else c.

Definition upper (c : cp) : cp :=
  if between 97 122 c then (c - 32)%N
  else if between 1072 1103 c then (c - 32)%N
  else if between 1104 1119 c then (c - 80)%N
  else c.

Definition cased (c : cp) : bool :=
  between 65 90 c || between 97 122 c || between 1024 1119 c.

Definition decimal (c : cp) : bool := ascii_digit c.

(** [Py_UNICODE_ISSPACE] *)
Definition isspace (c : cp) : bool :=
  between 9 13 c || between 28 32 c || cp_eqb c 133 || cp_eqb c 160
  || cp_eqb c 5760 || between 8192 8202 c || between 8232 8233 c
  || cp_eqb c 8239 || cp_eqb c 8287 || cp_eqb c 12288.

(** The [White_Space] property, used by [\s]. *)
Definition white_space (c : cp) : bool :=
  between 9 13 c || cp_eqb c 32 || cp_eqb c 133 || cp_eqb c 160
  || cp_eqb c 5760 || between 8192 8202 c || between 8232 8233 c
  || cp_eqb c 8239 || cp_eqb c 8287 || cp_eqb c 12288.

Definition word (c : cp) : bool :=
  ascii_digit c || cased c || cp_eqb c 95.

(** [str.title]: a character that follows a cased character is lowered,
    any other is title-cased. *)
Fixpoint title_from (previous_is_cased : bool) (s : pystr) : pystr :=
  match s with
  | [] => []
  | c :: s' =>
      (if previous_is_cased then lower c else upper c)
        :: title_from (cased c) s'
  end.

End Ucd.

(** ** Regular expressions

    The fragment of the [regex] syntax that the module's patterns use, with
    the matching order of a backtracking engine: alternatives left to right,
    greedy repetition first.  [Chr p] stands for any one-character atom (a
    literal, a class, [\d], [\w], [\s]); repetition is applied to
    one-character atoms only, as in the source. *)

Inductive re : Type :=
| Chr (p : cp -> bool)
| Eps
| Seq (r1 r2 : re)
| Alt (r1 r2 : re)
| Opt (r : re)
| Star (p : cp -> bool)
| Plus (p : cp -> bool)
| Group (name : string) (r : re)
| Bol
| Eol.

Declare Scope re_scope.
Delimit Scope re_scope with re.
Bind Scope re_scope with re.
Infix "+>" := Seq (at level 60, right associativity) : re_scope.

(** Captured named groups, most recent first. *)
Definition groups := list (string * pystr).

Fixpoint groupdict (name : string) (g : groups) : option pystr :=
  match g with
  | [] => None
  | (n, v) :: g' => if String.eqb n name then Some v else groupdict name g'
  end.

Section Matcher.

Variable R : Type.

(** A continuation receives the position reached, the text left and the
    groups captured so far. *)
Definition kont := nat -> pystr -> groups -> option R.

Definition or_else (a : option R) (b : option R) : option R :=
  match a with Some x => Some x | None => b end.

Fixpoint star_run (p : cp -> bool) (k : kont) (i : nat) (s : pystr)
  (g : groups) : option R :=
  match s with
  | c :: s' =>
      if p c then or_else (star_run p k (S i) s' g) (k i s g) else k i s g
  | [] => k i s g
  end.

Fixpoint re_run (r : re) (i : nat) (s : pystr) (g : groups) (k : kont)
  : option R :=
  match r with
  | Chr p =>
      match s with
      | c :: s' => if p c then k (S i) s' g else None
      | [] => None
      end
  | Eps => k i s g
  | Seq r1 r2 => re_run r1 i s g (fun i' s' g' => re_run r2 i' s' g' k)
  | Alt r1 r2 => or_else (re_run r1 i s g k) (re_run r2 i s g k)
  | Opt r1 => or_else (re_run r1 i s g k) (k i s g)
  | Star p => star_run p k i s g
  | Plus p =>
      match s with
      | c :: s' => if p c then star_run p k (S i) s' g else None
      | [] => None
      end
  | Group name r1 =>
      re_run r1 i s g
        (fun i' s' g' => k i' s' ((name, firstn (i' - i) s) :: g'))
  | Bol => match i with O => k i s g | S _ => None end
  | Eol =>
      match s with
      | [] => k i s g
      | [c] => if cp_eqb c 10 then k i s g else None
      | _ => None
      end
  end.

End Matcher.

(** A match object: [start()], [end()] and the named groups. *)
Record re_match_obj := MatchObj {
  m_start : nat;
  m_end : nat;
  m_groups : groups
}.

(** [pattern.match(s)]: the pattern is tried at position 0 only. *)
Definition re_match (r : re) (s : pystr) : option re_match_obj :=
  re_run r 0 s [] (fun i' _ g => Some (MatchObj 0 i' g)).

(** [pattern.search(s)]: the leftmost position at which the pattern matches. *)
Fixpoint re_search_from (r : re) (i : nat) (s : pystr) : option re_match_obj :=
  match re_run r i s [] (fun i' _ g => Some (MatchObj i i' g)) with
  | Some m => Some m
  | None =>
      match s with
      | [] => None
      | _ :: s' => re_search_from r (S i) s'
      end
  end.

Definition re_search (r : re) (s : pystr) : option re_match_obj :=
  re_search_from r 0 s.

(** A literal, and a choice between at least one alternative. *)
Fixpoint lit_with (eq : cp -> cp -> bool) (s : pystr) : re :=
  match s with
  | [] => Eps
  | [c] => Chr (eq c)
  | c :: s' => Seq (Chr (eq c)) (lit_with eq s')
  end.

Fixpoint alts (r : re) (rs : list re) : re :=
  match rs with
  | [] => r
  | r' :: rs' => Alt r (alts r' rs')
  end.

(** ** Results and exceptions *)

Inductive outcome (A : Type) : Type :=
| Ok (a : A)
| Raise (exc_class : string).
Arguments Ok {A} a.
Arguments Raise {A} exc_class.

Definition obind {A B} (c : outcome A) (k : A -> outcome B) : outcome B :=
  match c with
  | Ok a => k a
  | Raise e => Raise e
  end.

(** ** Connection records and the object store *)

Record Connection := mkConnection {
  region : pystr;
  city : pystr;
  street : pystr;
  provider : pystr;
  house : pystr;
  status : pystr
}.

Inductive Field := Region | City | Street | Provider | House | Status.

(** The data attributes of a [Connection], by name. *)
Definition conn_attr (name : pystr) : option Field :=
  if str_eqb name (u "region") then Some Region
  else if str_eqb name (u "city") then Some City
  else if str_eqb name (u "street") then Some Street
  else if str_eqb name (u "provider") then Some Provider
  else if str_eqb name (u "house") then Some House
  else if str_eqb name (u "status") then Some Status
  else None.

Definition get_field (f : Field) (r : Connection) : pystr :=
  match f with
  | Region => region r
  | City => city r
  | Street => street r
  | Provider => provider r
  | House => house r
  | Status => status r
  end.

Definition set_field (f : Field) (v : pystr) (r : Connection) : Connection :=
  match f with
  | Region => mkConnection v (city r) (street r) (provider r) (house r) (status r)
  | City => mkConnection (region r) v (street r) (provider r) (house r) (status r)
  | Street => mkConnection (region r) (city r) v (provider r) (house r) (status r)
  | Provider => mkConnection (region r) (city r) (street r) v (house r) (status r)
  | House => mkConnection (region r) (city r) (street r) (provider r) v (status r)
  | Status => mkConnection (region r) (city r) (street r) (provider r) (house r) v
  end.

(** A reference to a [Connection] object, and the store of all of them. *)
Definition ref := nat.
Definition heap := list Connection.

Fixpoint heap_store (h : heap) (c : ref) (r : Connection) : heap :=
  match h, c with
  | [], _ => []
  | _ :: h', O => r :: h'
  | x :: h', S c' => x :: heap_store h' c' r
  end.

(** Computations that read and write the store and may raise. *)
Definition M (A : Type) : Type := heap -> outcome A * heap.

Definition ret {A} (a : A) : M A := fun h => (Ok a, h).

Definition raise {A} (exc_class : string) : M A :=
  fun h => (Raise exc_class, h).

Definition bind {A B} (c : M A) (k : A -> M B) : M B :=
  fun h =>
    match c h with
    | (Ok a, h') => k a h'
    | (Raise e, h') => (Raise e, h')
    end.

Definition lift {A} (o : outcome A) : M A := fun h => (o, h).

Notation "x <- c ;; k" := (bind c (fun x => k))
  (at level 61, c at next level, right associativity).

(** A reference outside the store cannot be produced by the code below; the
    model stops on one. *)
Definition deref (c : ref) : M Connection :=
  fun h =>
    match nth_error h c with
    | Some r => (Ok r, h)
    | None => (Raise "ReferenceError", h)
    end.

(** Modelled from the spec: [Connection.from_modified_connection], whose
    module [by_isp_coverage/connection.py] is not among the sources.  It takes
    the original record plus a set of field:value overrides and returns a new
    independent record: a fresh object in the store, all unspecified fields
    copied from the original. *)
Definition from_modified_connection (c : ref) (overrides : list (Field * pystr))
  : M ref :=
  fun h =>
    match nth_error h c with
    | Some r =>
        (Ok (length h),
         h ++ [fold_left (fun r' kv => set_field (fst kv) (snd kv) r')
                 overrides r])
    | None => (Raise "ReferenceError", h)
    end.

(** [for x in xs: ...] where the body contributes the records it yields. *)
Fixpoint for_each {A B} (xs : list A) (body : A -> M (list B)) : M (list B) :=
  match xs with
  | [] => ret []
  | x :: xs' =>
      ys <- body x ;;
      zs <- for_each xs' body ;;
      ret (ys ++ zs)
  end.

(** ** Field strategy results

    A strategy returns a list whose elements are either a [str] or a tuple
    [(value, callback)].  A callback receives the derived object and mutates
    it in place. *)

Definition callback := ref -> heap -> heap.

Inductive candidate :=
| Value (v : pystr)
| WithCallback (v : pystr) (cb : callback).

Definition strategy := pystr -> outcome (list candidate).

(** ** validators.py *)

Section Validators.

Context {U : Unicode}.

(** [s.isdecimal()] *)
Definition str_isdecimal (s : pystr) : bool :=
  negb (is_empty s) && forallb chr_isdecimal s.

(** [s.strip()] *)
Definition str_strip (s : pystr) : pystr :=
  rstrip chr_isspace (lstrip chr_isspace s).

(** A literal of a pattern, exact or under [regex.IGNORECASE]. *)
Definition lit (s : string) : re := lit_with cp_eqb (u s).
Definition lit_i (s : string) : re := lit_with re_same_nocase (u s).

(** [None] is rendered as the text [None] by [str.format]. *)
Definition format_arg (v : option pystr) : pystr :=
  match v with
  | Some s => s
  | None => u "None"
  end.

Definition CITY_PARTS_TO_EXCLUDE : list pystr :=
  [u "д.г.п."; u "п.г.т"; u "аг."; u "г.п."; u "агр.";
   u "д."; u "г."; u "п."; u "к."].

(** [^(?P<house_number>\d+),?(?P<delimiter>([-/\s]*| (к|К)\.[ ]?))()()(?P<building>\w+)$] *)
Definition RE_BUILDING_NUMBER : re :=
  (Bol
   +> Group "house_number" (Plus re_digit)
   +> Opt (lit ",")
   +> Group "delimiter"
        (alts (Star (fun c => cp_eqb c 45 || cp_eqb c 47 || re_space c))
              [lit " " +> alts (lit "к") [lit "К"] +> lit "." +> Opt (lit " ")])
   +> Eps
   +> Eps
   +> Group "building" (Plus re_word)
   +> Eol)%re.

Definition is_for_artificial_person (house_str : pystr) : bool :=
  let s := str_lower house_str in
  str_in (u "юр. лица") s || str_in (u "юридические лица") s.

(** *** Toponym *)

Record Toponym := mkToponym {
  _original_str : pystr;
  _default_type : pystr;
  _type : option pystr;
  _name : pystr
}.

Definition SUPPORTED_TYPES : list pystr :=
  [u "улица"; u "переулок"; u "проспект"; u "проезд"; u "бульвар";
   u "микрорайон"].

Definition MANUAL_MAP : list (pystr * (pystr * pystr)) :=
  [(u "3ий пер Волчецкого", (u "переулок", u "3-й Волчецкого"));
   (u "А/Г ЛЕСНОЙ АЛЕКСАНДРОВА УЛ.",
    (u "улица", u "Александрова (агрогородок Лесной)"))].

Definition TYPE_MAP : list (re * pystr) :=
  [(alts (lit_i "прз.") [lit_i "пр-д"; lit_i "проезд"], u "проезд");
   (alts (lit_i "пос.") [lit_i "поселок"], u "поселок");
   (alts (lit_i "мр-н") [lit_i "микрорайон"], u "микрорайон");
   (lit_i "а/г", u "агрогородок");
   (alts (lit_i "переулок") [lit_i "пер."], u "переулок");
   (alts (lit_i "б-р") [lit_i "бул."; lit_i "бульвар"], u "бульвар");
   (alts (lit_i "ул,") [lit_i ", ул."; lit_i ", ул"; lit_i "ул."; lit_i "улица"],
    u "улица");
   (alts (lit_i "проспект") [lit_i "пр-кт"; lit_i "пр-т"; lit_i "пр."],
    u "проспект")].

(** [key in d] and [d[key]] on a dict with [str] keys. *)
Fixpoint dict_get {V} (d : list (pystr * V)) (key : pystr) : option V :=
  match d with
  | [] => None
  | (k, v) :: d' => if str_eqb k key then Some v else dict_get d' key
  end.

Definition dict_contains {V} (d : list (pystr * V)) (key : pystr) : bool :=
  match dict_get d key with Some _ => true | None => false end.

Definition dict_getitem {V} (d : list (pystr * V)) (key : pystr) : outcome V :=
  match dict_get d key with
  | Some v => Ok v
  | None => Raise "KeyError"
  end.

Fixpoint extract_with (rules : list (re * pystr)) (name : pystr)
  : option pystr * pystr :=
  match rules with
  | [] => (None, str_strip name)
  | (type_regex, type_value) :: rules' =>
      match re_search type_regex name with
      | Some m =>
          let new_name :=
            str_replace (slice name (m_start m) (m_end m)) [] name in
          (Some type_value, str_strip new_name)
      | None => extract_with rules' name
      end
  end.

Definition _extract_type_and_name (name : pystr) : option pystr * pystr :=
  extract_with TYPE_MAP name.

Definition _normalize_name (name : pystr) : pystr := str_title name.

(** [tokenize] returns the pair it assigns to [self._type, self._name]. *)
Definition tokenize (default_type name : pystr)
  : outcome (option pystr * pystr) :=
  if dict_contains MANUAL_MAP name then
    obind (dict_getitem MANUAL_MAP name)
      (fun tn => Ok (Some (fst tn), snd tn))
  else
    let (_type, name) := _extract_type_and_name name in
    let _type :=
      match _type with
      | None => Some default_type
      | Some t => Some t
      end in
    Ok (_type, _normalize_name name).

(** [Toponym(s, default_type)] *)
Definition Toponym_new (s default_type : pystr) : outcome Toponym :=
  obind (tokenize default_type s)
    (fun tn => Ok (mkToponym s default_type (fst tn) (snd tn))).

Definition Toponym_format (t : Toponym) : pystr :=
  format_arg (_type t) ++ u " " ++ _name t.

(** *** Field strategies *)

Definition validate_city_field (city : pystr) : outcome (list candidate) :=
  let city :=
    if endswith (u " п") city then str_replace (u " п") [] city else city in
  let city :=
    fold_left
      (fun city part =>
         if str_in part city then str_replace part [] city else city)
      CITY_PARTS_TO_EXCLUDE city in
  let city := str_title (str_lower city) in
  Ok [Value (str_strip city)].

Definition status_update_callback : callback :=
  fun c h =>
    match nth_error h c with
    | Some r =>
        heap_store h c
          (set_field Status (status r ++ u " (юридические лица)") r)
    | None => h
    end.

Definition validate_house_field (house : pystr) : outcome (list candidate) :=
  if str_isdecimal house then Ok [Value house]
  else
    match re_match RE_BUILDING_NUMBER house with
    | Some m =>
        let d := m_groups m in
        let new_house :=
          format_arg (groupdict "house_number" d) ++ u " (корпус "
            ++ format_arg (groupdict "building" d) ++ u ")" in
        Ok [Value new_house]
    | None =>
        if is_for_artificial_person house then
          let house := str_replace (u "(юридические лица)") [] house in
          let house := str_replace (u "ЮР. ЛИЦА") [] house in
          let house := str_replace (u "юр. лица") [] house in
          Ok [WithCallback (str_strip house) status_update_callback]
        else if str_in (u ",") house then
          let house := str_replace (u " ") [] house in
          let houses :=
            filter (fun h => negb (is_empty h)) (str_split 44 house) in
          Ok (map Value houses)
        else Ok [Value house]
    end.

Definition validate_status_field (status : pystr) : outcome (list candidate) :=
  Ok [Value status].

Definition validate_region_field (region : pystr) : outcome (list candidate) :=
  Ok [Value region].

Definition validate_provider_field (provider : pystr)
  : outcome (list candidate) :=
  Ok [Value provider].

Definition validate_street_field (street : pystr) : outcome (list candidate) :=
  obind (Toponym_new street (u "улица"))
    (fun t => Ok [Value (Toponym_format t)]).

(** *** ConnectionValidator *)

Record ConnectionValidator := mkValidator {
  fields : list pystr
}.

Definition DEFAULT_FIELDS : list pystr :=
  [u "house"; u "provider"; u "region"; u "city"; u "street"; u "status"].

(** What a caller may pass for a constructor argument: [None], a sequence of
    names, or one of the two replacement maps of the street field. *)
Inductive pyarg :=
| PyNone
| PyNames (names : list pystr)
| PyStreetMap (d : list (pystr * (pystr * pystr)))
| PyTextMap (d : list (pystr * pystr)).

(** Truth value, and the sequence obtained by iterating over the value (a
    dict iterates over its keys). *)
Definition truthy (a : pyarg) : bool :=
  match a with
  | PyNone => false
  | PyNames l => negb (match l with [] => true | _ => false end)
  | PyStreetMap d => negb (match d with [] => true | _ => false end)
  | PyTextMap d => negb (match d with [] => true | _ => false end)
  end.

Definition names_of (a : pyarg) : list pystr :=
  match a with
  | PyNone => []
  | PyNames l => l
  | PyStreetMap d => map fst d
  | PyTextMap d => map fst d
  end.

(** [__init__(self, fields=None)] *)
Definition ConnectionValidator_init (fields : pyarg) : ConnectionValidator :=
  mkValidator (if truthy fields then names_of fields else DEFAULT_FIELDS).

Fixpoint kwarg (name : string) (kwargs : list (string * pyarg))
  : option pyarg :=
  match kwargs with
  | [] => None
  | (n, v) :: kwargs' => if String.eqb n name then Some v else kwarg name kwargs'
  end.

(** A call of [ConnectionValidator] with keyword arguments: the signature
    of [__init__] has the one parameter [fields]; a call with any other
    keyword raises [TypeError]. *)
Definition ConnectionValidator_new (kwargs : list (string * pyarg))
  : outcome ConnectionValidator :=
  if forallb (fun kv => String.eqb (fst kv) "fields") kwargs then
    Ok (ConnectionValidator_init
          (match kwarg "fields" kwargs with Some a => a | None => PyNone end))
  else Raise "TypeError".

(** ["validate_{}_field".format(field)] *)
Definition strategy_name (field : pystr) : pystr :=
  u "validate_" ++ field ++ u "_field".

(** [getattr(self, name)] for a name of that form: the class defines six such
    methods. *)
Definition getattr_validator (name : pystr) : outcome strategy :=
  if str_eqb name (u "validate_city_field") then Ok validate_city_field
  else if str_eqb name (u "validate_house_field") then Ok validate_house_field
  else if str_eqb name (u "validate_status_field") then Ok validate_status_field
  else if str_eqb name (u "validate_region_field") then Ok validate_region_field
  else if str_eqb name (u "validate_provider_field")
       then Ok validate_provider_field
  else if str_eqb name (u "validate_street_field") then Ok validate_street_field
  else Raise "AttributeError".

(** The body of the inner loop of [__validate_field] for one element [f] of
    the strategy's result.
    - [f] is a tuple: [f[1]] is the callback; the record is built with
      [f[0]], handed to the callback and yielded.
    - [f] is a [str] of two characters or more: [f[1]] is a one-character
      [str]; a record is built with the character [f[0]] and abandoned when
      calling [f[1]] raises [TypeError]; the handler builds the record that
      is yielded.
    - [f] is a shorter [str]: [f[1]] raises [IndexError] and the handler
      builds the record that is yielded. *)
Definition derive (c : ref) (field : Field) (f : candidate) : M ref :=
  match f with
  | WithCallback v callback =>
      conn <- from_modified_connection c [(field, v)] ;;
      _ <- (fun h => (Ok tt, callback conn h)) ;;
      ret conn
  | Value s =>
      match s with
      | f0 :: _ :: _ =>
          _ <- from_modified_connection c [(field, [f0])] ;;
          from_modified_connection c [(field, s)]
      | _ => from_modified_connection c [(field, s)]
      end
  end.

(** One pass of the outer loop of [__validate_field]: the record [c] arrives
    from upstream, and every record yielded for it is consumed by
    [downstream] before the next one is built. *)
Definition validate_record (field : pystr) (validate_strategy : strategy)
  (downstream : ref -> M (list ref)) (c : ref) : M (list ref) :=
  match conn_attr field with
  | None => raise "AttributeError"
  | Some attr =>
      r <- deref c ;;
      let field_to_validate := get_field attr r in
      fs <- lift (validate_strategy field_to_validate) ;;
      for_each fs (fun f => conn <- derive c attr f ;; downstream conn)
  end.

(** The chain of generators built by [validate_connections], first field
    innermost; the consumer of the last one collects what it yields. *)
Fixpoint pull (stages : list (pystr * strategy)) (c : ref) : M (list ref) :=
  match stages with
  | [] => ret [c]
  | (field, validate_strategy) :: stages' =>
      validate_record field validate_strategy (pull stages') c
  end.

(** Each generator looks its strategy up when it is first resumed, and it is
    resumed before it asks the generator below it for a record: the lookups
    run from the last field to the first, before any record is read. *)
Fixpoint resolve (fs : list pystr) : outcome (list (pystr * strategy)) :=
  match fs with
  | [] => Ok []
  | f :: fs' =>
      obind (resolve fs')
        (fun stages' =>
           obind (getattr_validator (strategy_name f))
             (fun validate_strategy => Ok ((f, validate_strategy) :: stages')))
  end.

(** [list(self.__validate_field(connections, field))] *)
Definition __validate_field (connections : list ref) (field : pystr)
  : M (list ref) :=
  validate_strategy <- lift (getattr_validator (strategy_name field)) ;;
  for_each connections (pull [(field, validate_strategy)]).

(** [list(v.validate_connections(connections))]: the generator returned by
    [validate_connections], run to exhaustion. *)
Definition validate_connections (v : ConnectionValidator)
  (connections : list ref) : M (list ref) :=
  stages <- lift (resolve (fields v)) ;;
  for_each connections (pull stages).

Definition _validate_city (connections : list ref) : M (list ref) :=
  __validate_field connections (u "city").

Definition _validate_house (connections : list ref) : M (list ref) :=
  __validate_field connections (u "house").

End Validators.

(** ** Vocabulary of the statements *)

(** The callback that the strategies of the class hand out. *)
Definition candidate_ok (f : candidate) : Prop :=
  match f with
  | Value _ => True
  | WithCallback _ cb => cb = status_update_callback
  end.

Definition strategy_ok (s : strategy) : Prop :=
  forall v fs, s v = Ok fs -> Forall candidate_ok fs.

(** The record that [derive] builds for [f] from a parent whose value is
    [r]. *)
Definition derived (r : Connection) (attr : Field) (f : candidate)
  : Connection :=
  match f with
  | Value v => set_field attr v r
  | WithCallback v _ =>
      let r1 := set_field attr v r in
      set_field Status (status r1 ++ u " (юридические лица)") r1
  end.

Definition is_value (f : candidate) : bool :=
  match f with Value _ => true | WithCallback _ _ => false end.

(** References in increasing order, all within [lo, hi). *)
Definition fresh_sorted (lo hi : nat) (out : list ref) : Prop :=
  StronglySorted lt out /\ Forall (fun c => lo <= c < hi) out.

(** Run from the store [h], [m] only appends objects to the store, and the
    references it returns are distinct, increasing and at least [lo]. *)
Definition appends_fresh (m : M (list ref)) (lo : nat) (h : heap) : Prop :=
  exists ext,
    snd (m h) = h ++ ext
    /\ forall out, fst (m h) = Ok out ->
                   fresh_sorted lo (length (h ++ ext)) out.

(** [s] with its space characters (U+0020) removed. *)
Definition without_spaces (s : pystr) : pystr :=
  filter (fun c => negb (cp_eqb 32 c)) s.

(** Following the words of the specification for the comma branch of the
    house strategy: split on commas, remove the spaces of each segment,
    discard the empty segments. *)
Definition house_segments_spec (house : pystr) : list pystr :=
  filter (fun h => negb (is_empty h))
    (map without_spaces (str_split 44 house)).

(** A house value made of commas and spaces only. *)
Definition commas_and_spaces (house : pystr) : Prop :=
  Forall (fun c => c = 44%N \/ c = 32%N) house.

(** The record that the tests build with [create_connection]. *)
Definition create_connection (street house status : pystr) : Connection :=
  mkConnection (u "test") (u "test") street (u "test") house status.

(** The street of the only record yielded for a one-record input, if there
    is exactly one. *)
Definition only_street (run : outcome (list ref) * heap) : option pystr :=
  match run with
  | (Ok [c], h) => option_map street (nth_error h c)
  | _ => None
  end.

(** The continuation of [re_match]. *)
Definition finish : kont re_match_obj :=
  fun i' _ g => Some (MatchObj 0 i' g).

(** The class of the first alternative of the delimiter group. *)
Definition delimiter_class {U : Unicode} (c : cp) : bool :=
  cp_eqb c 45 || cp_eqb c 47 || re_space c.

(** The part of the pattern after the delimiter group, and the second
    alternative of that group. *)
Definition building_tail {U : Unicode} : re :=
  (Eps +> Eps +> Group "building" (Plus re_word) +> Eol)%re.

Definition building_marker : re :=
  (Chr (cp_eqb 32) +> Alt (Chr (cp_eqb 1082)) (Chr (cp_eqb 1050))
   +> Chr (cp_eqb 46) +> Opt (Chr (cp_eqb 32)))%re.

(** A delimiter of the pattern: a run of '-', '/' and white space, or the
    marker " к." or " К." with an optional space after it. *)
Definition delimiter_ok {U : Unicode} (delim : pystr) : Prop :=
  forallb delimiter_class delim = true
  \/ exists k sp,
      (k = 1082%N \/ k = 1050%N) /\ (sp = [] \/ sp = [32%N])
      /\ delim = 32%N :: k :: 46%N :: sp.

(** The span of a match. *)
Definition span (m : re_match_obj) : nat * nat := (m_start m, m_end m).

(** A rule of [TYPE_MAP] that does not match [name]. *)
Definition no_match (name : pystr) (rule : re * pystr) : Prop :=
  re_search (fst rule) name = None.

(** ** Vocabulary of the further properties *)

(** The object at [c] in the store [h] is [r]. *)
Definition stored (h : heap) (c : ref) (r : Connection) : Prop :=
  nth_error h c = Some r.

(** The records that one field pass derives from the record [r]: one for
    each result of the field's strategy. *)
Definition field_values {U : Unicode} (field : pystr) (r : Connection)
  : list Connection :=
  match getattr_validator (strategy_name field), conn_attr field with
  | Ok strat, Some attr =>
      match strat (get_field attr r) with
      | Ok fs => map (derived r attr) fs
      | Raise _ => []
      end
  | _, _ => []
  end.

(** The passes applied one after the other to the whole sequence, the way
    the loop of [validate_connections] composes them. *)
Fixpoint run_values {U : Unicode} (fields : list pystr)
  (rs : list Connection) : list Connection :=
  match fields with
  | [] => rs
  | f :: fields' => run_values fields' (flat_map (field_values f) rs)
  end.

(** The same passes applied record by record, the way the chain of
    generators produces its records. *)
Fixpoint depth_values {U : Unicode} (fields : list pystr) (r : Connection)
  : list Connection :=
  match fields with
  | [] => [r]
  | f :: fields' => flat_map (depth_values fields') (field_values f r)
  end.

(** No white space at either end. *)
Definition trimmed {U : Unicode} (s : pystr) : Prop :=
  match s with
  | [] => True
  | c :: _ => chr_isspace c = false
  end
  /\ match rev s with
     | [] => True
     | c :: _ => chr_isspace c = false
     end.

(** The number of commas of a value. *)
Definition commas (s : pystr) : nat := count_occ N.eq_dec s 44%N.

(** A greedy repetition of the class [p] stops in front of [s]. *)
Definition stops (p : cp -> bool) (s : pystr) : Prop :=
  match s with
  | [] => True
  | c :: _ => p c = false
  end.

(** * Lemmas *)

(** ** The tables used for concrete inputs *)

Lemma Ucd_lower_ascii (s : pystr) :
  Forall (fun c => (c < 128)%N) s -> map Ucd.lower s = map ascii_lower s.
Proof.
  induction 1 as [|c s Hc _ IH]; [reflexivity|].
  cbn [map]. rewrite IH. f_equal.
  unfold Ucd.lower, ascii_lower, Ucd.between.
  destruct ((65 <=? c)%N && (c <=? 90)%N); [reflexivity|].
  replace (1040 <=? c)%N with false by (symmetry; apply N.leb_gt; lia).
  replace (1024 <=? c)%N with false by (symmetry; apply N.leb_gt; lia).
  reflexivity.
Qed.

#[export] Instance ucd : Unicode := {|
  chr_isdecimal := Ucd.decimal;
  chr_isspace := Ucd.isspace;
  str_lower := map Ucd.lower;
  str_title := Ucd.title_from false;
  re_digit := Ucd.decimal;
  re_word := Ucd.word;
  re_space := Ucd.white_space;
  re_same_nocase := fun a b => cp_eqb (Ucd.lower a) (Ucd.lower b);
  isdecimal_ascii := fun _ _ => eq_refl;
  re_digit_ascii := fun _ _ => eq_refl;
  lower_ascii := Ucd_lower_ascii
|}.

(** ** Strings *)

Unset Implicit Arguments.

Section StringFacts.

Lemma u_space : u " " = [32%N].
Proof. reflexivity. Qed.

Lemma u_comma : u "," = [44%N].
Proof. reflexivity. Qed.

Lemma cp_eqb_eq (a b : cp) : cp_eqb a b = true <-> a = b.
Proof. apply N.eqb_eq. Qed.

Lemma cp_eqb_neq (a b : cp) : cp_eqb a b = false <-> a <> b.
Proof. apply N.eqb_neq. Qed.

Lemma startswith_head_absent (x : cp) (p s : pystr) :
  ~ In x s -> startswith (x :: p) s = false.
Proof.
  destruct s as [|y s]; [reflexivity|]. cbn. intros H.
  destruct (cp_eqb x y) eqn:E; [|reflexivity].
  apply cp_eqb_eq in E. subst. tauto.
Qed.

Lemma str_in_head_absent (x : cp) (p s : pystr) :
  ~ In x s -> str_in (x :: p) s = false.
Proof.
  induction s as [|y s IH]; intros H.
  - reflexivity.
  - cbn [str_in]. rewrite startswith_head_absent by exact H.
    cbn. apply IH. intros Hin. apply H. now right.
Qed.

Lemma str_in_single (x : cp) (s : pystr) :
  In x s -> str_in [x] s = true.
Proof.
  induction s as [|y s IH]; [easy|]. intros [->|H].
  - cbn. unfold cp_eqb. now rewrite N.eqb_refl.
  - cbn [str_in]. rewrite (IH H). apply orb_true_r.
Qed.

Lemma replace_spaces (s : pystr) :
  str_replace (u " ") [] s = without_spaces s.
Proof.
  rewrite u_space. unfold str_replace, without_spaces.
  induction s as [|c s IH]; [reflexivity|].
  cbn [replace_from startswith filter length Nat.sub].
  destruct (cp_eqb 32 c); cbn [andb negb app]; rewrite IH; reflexivity.
Qed.

Lemma str_split_cons (sep : cp) (s : pystr) :
  exists seg segs, str_split sep s = seg :: segs.
Proof.
  induction s as [|c s (seg & segs & E)]; cbn.
  - eauto.
  - destruct (cp_eqb c sep); [eauto|]. rewrite E. eauto.
Qed.

(** Removing the spaces before splitting on commas is removing them from
    every segment. *)
Lemma split_without_spaces (s : pystr) :
  str_split 44 (without_spaces s) = map without_spaces (str_split 44 s).
Proof.
  induction s as [|c s IH]; [reflexivity|].
  destruct (str_split_cons 44 s) as (seg & segs & E).
  unfold without_spaces at 1. cbn [filter str_split].
  fold (without_spaces s).
  destruct (cp_eqb 32 c) eqn:E32; cbn [negb].
  - apply cp_eqb_eq in E32. subst c.
    change (cp_eqb 32 44) with false. cbv iota.
    rewrite IH, E. reflexivity.
  - cbn [str_split]. rewrite IH, E.
    destruct (cp_eqb c 44) eqn:E44; cbn [map].
    + reflexivity.
    + f_equal. unfold without_spaces. cbn [filter]. now rewrite E32.
Qed.

(** A comma at the end adds an empty segment and nothing else. *)
Lemma str_split_trailing (s : pystr) :
  str_split 44 (s ++ [44%N]) = str_split 44 s ++ [[]].
Proof.
  induction s as [|c s IH]; [reflexivity|].
  cbn [app str_split]. rewrite IH.
  destruct (cp_eqb c 44); [reflexivity|].
  destruct (str_split_cons 44 s) as (seg & segs & E). rewrite E. reflexivity.
Qed.

Lemma str_split_all_commas (s : pystr) :
  Forall (fun c => c = 44%N) s ->
  Forall (fun seg => seg = []) (str_split 44 s).
Proof.
  induction 1 as [|c s -> _ IH]; cbn; auto.
Qed.

Lemma filter_none {A} (p : A -> bool) (l : list A) :
  Forall (fun x => p x = false) l -> filter p l = [].
Proof.
  induction 1 as [|x l Hx _ IH]; cbn; [reflexivity|]. now rewrite Hx.
Qed.

Lemma forallb_false {A} (p : A -> bool) (x : A) (l : list A) :
  In x l -> p x = false -> forallb p l = false.
Proof.
  induction l as [|y l IH]; [easy|]. intros [->|H] Hx; cbn.
  - now rewrite Hx.
  - rewrite (IH H Hx). apply andb_false_r.
Qed.

End StringFacts.

(** ** The store *)

Section StoreFacts.

Lemma nth_error_last (h : heap) (r : Connection) :
  nth_error (h ++ [r]) (length h) = Some r.
Proof.
  rewrite nth_error_app2 by lia. now rewrite Nat.sub_diag.
Qed.

Lemma nth_error_keep (h ext : heap) (c : ref) (r : Connection) :
  nth_error h c = Some r -> nth_error (h ++ ext) c = Some r.
Proof.
  intros H. rewrite nth_error_app1; [exact H|].
  apply nth_error_Some. congruence.
Qed.

Lemma heap_store_last (h : heap) (r r' : Connection) :
  heap_store (h ++ [r]) (length h) r' = h ++ [r'].
Proof.
  induction h as [|x h IH]; cbn; [reflexivity|]. now rewrite IH.
Qed.

Lemma status_update_callback_last (h : heap) (r : Connection) :
  status_update_callback (length h) (h ++ [r])
  = h ++ [set_field Status (status r ++ u " (юридические лица)") r].
Proof.
  unfold status_update_callback.
  rewrite nth_error_last. apply heap_store_last.
Qed.

Lemma from_modified_connection_one (h : heap) (c : ref) (r : Connection)
  (attr : Field) (v : pystr) :
  nth_error h c = Some r ->
  from_modified_connection c [(attr, v)] h
  = (Ok (length h), h ++ [set_field attr v r]).
Proof.
  intros H. unfold from_modified_connection. now rewrite H.
Qed.

Lemma fresh_sorted_nil (lo hi : nat) : fresh_sorted lo hi [].
Proof. split; constructor. Qed.

Lemma fresh_sorted_one (lo hi c : nat) :
  lo <= c < hi -> fresh_sorted lo hi [c].
Proof.
  intros H. split; repeat constructor; lia.
Qed.

Lemma fresh_sorted_weaken (lo lo' hi hi' : nat) (out : list ref) :
  lo' <= lo -> hi <= hi' -> fresh_sorted lo hi out -> fresh_sorted lo' hi' out.
Proof.
  intros Hlo Hhi [Hs Hb]. split; [exact Hs|].
  eapply Forall_impl; [|exact Hb]. cbn. intros; lia.
Qed.

Lemma fresh_sorted_app (lo mid hi : nat) (ys zs : list ref) :
  fresh_sorted lo mid ys -> fresh_sorted mid hi zs -> lo <= mid <= hi ->
  fresh_sorted lo hi (ys ++ zs).
Proof.
  intros [Hys Bys] [Hzs Bzs] Hle. split.
  - induction Hys as [|y ys Hys IH Hy]; cbn; [exact Hzs|].
    inversion Bys as [|? ? By Bys']; subst.
    constructor; [now apply IH|].
    apply Forall_app. split; [exact Hy|].
    eapply Forall_impl; [|exact Bzs]. cbn. intros; lia.
  - apply Forall_app. split.
    + eapply Forall_impl; [|exact Bys]. cbn. intros; lia.
    + eapply Forall_impl; [|exact Bzs]. cbn. intros; lia.
Qed.

End StoreFacts.

(** ** The generator pipeline *)

Section PipelineFacts.

Context {U : Unicode}.

Lemma derive_content (c : ref) (attr : Field) (f : candidate) (h : heap)
  (r : Connection) :
  candidate_ok f -> nth_error h c = Some r ->
  exists conn ext,
    derive c attr f h = (Ok conn, h ++ ext)
    /\ length h <= conn < length (h ++ ext)
    /\ nth_error (h ++ ext) conn = Some (derived r attr f).
Proof.
  intros Hok Hc. destruct f as [s|v cb]; cbn in Hok.
  - assert (Hshort :
      exists conn ext,
        from_modified_connection c [(attr, s)] h = (Ok conn, h ++ ext)
        /\ length h <= conn < length (h ++ ext)
        /\ nth_error (h ++ ext) conn = Some (derived r attr (Value s))).
    { rewrite (@from_modified_connection_one h c r attr s Hc).
      exists (length h), [set_field attr s r].
      rewrite length_app, nth_error_last. cbn. repeat split; lia. }
    destruct s as [|f0 [|f1 s']]; try exact Hshort.
    unfold derive, bind, from_modified_connection. cbv iota beta.
    rewrite Hc. cbn [fold_left fst snd].
    rewrite (@nth_error_keep h [set_field attr [f0] r] c r Hc).
    exists (length (h ++ [set_field attr [f0] r])),
      [set_field attr [f0] r; set_field attr (f0 :: f1 :: s') r].
    replace (h ++ [set_field attr [f0] r; set_field attr (f0 :: f1 :: s') r])
      with ((h ++ [set_field attr [f0] r])
              ++ [set_field attr (f0 :: f1 :: s') r])
      by (rewrite <- app_assoc; reflexivity).
    rewrite nth_error_last. rewrite !length_app. cbn.
    repeat split; lia.
  - subst cb. unfold derive, bind, ret. cbv iota beta.
    rewrite (@from_modified_connection_one h c r attr v Hc).
    rewrite status_update_callback_last.
    exists (length h),
      [set_field Status
         (status (set_field attr v r) ++ u " (юридические лица)")
         (set_field attr v r)].
    rewrite length_app, nth_error_last. cbn. repeat split; lia.
Qed.

Lemma derive_dangling (c : ref) (attr : Field) (f : candidate) (h : heap) :
  nth_error h c = None -> derive c attr f h = (Raise "ReferenceError", h).
Proof.
  intros Hc.
  assert (E : forall v,
    from_modified_connection c [(attr, v)] h = (Raise "ReferenceError", h)).
  { intros v. unfold from_modified_connection. now rewrite Hc. }
  destruct f as [s|v cb].
  - destruct s as [|f0 [|f1 s']]; unfold derive, bind; now rewrite E.
  - unfold derive, bind. now rewrite E.
Qed.

Lemma derive_frame (c : ref) (attr : Field) (f : candidate) (h : heap) :
  candidate_ok f ->
  exists ext,
    snd (derive c attr f h) = h ++ ext
    /\ forall conn, fst (derive c attr f h) = Ok conn ->
                    length h <= conn < length (h ++ ext).
Proof.
  intros Hok. destruct (nth_error h c) as [r|] eqn:Hc.
  - destruct (derive_content c attr f h r Hok Hc) as (conn & ext & E & B & _).
    exists ext. rewrite E. cbn. split; [reflexivity|].
    intros conn' [= <-]. exact B.
  - rewrite (derive_dangling c attr f h Hc). exists []. cbn.
    rewrite app_nil_r. split; [reflexivity|discriminate].
Qed.

Lemma for_each_fresh {A} (xs : list A) (body : A -> M (list ref)) :
  (forall x h, In x xs -> appends_fresh (body x) (length h) h) ->
  forall h, appends_fresh (for_each xs body) (length h) h.
Proof.
  unfold appends_fresh.
  induction xs as [|x xs IH]; intros Hbody h.
  - exists []. cbn. rewrite app_nil_r. split; [reflexivity|].
    intros out [= <-]. apply fresh_sorted_nil.
  - destruct (Hbody x h (or_introl eq_refl)) as (e1 & S1 & F1).
    cbn [for_each]. unfold bind.
    destruct (body x h) as [[ys|e] h1] eqn:E1; cbn in S1, F1; subst h1.
    + destruct (IH (fun y h' Hy => Hbody y h' (or_intror Hy)) (h ++ e1))
        as (e2 & S2 & F2).
      destruct (for_each xs body (h ++ e1)) as [[zs|e] h2] eqn:E2;
        cbn in S2, F2; subst h2; exists (e1 ++ e2); cbn;
        rewrite app_assoc; (split; [reflexivity|]).
      * intros out [= <-].
        apply fresh_sorted_app with (mid := length (h ++ e1)).
        -- apply F1. reflexivity.
        -- apply F2. reflexivity.
        -- rewrite !length_app. lia.
      * discriminate.
    + exists e1. cbn. split; [reflexivity|discriminate].
Qed.

Lemma validate_record_eq (field : pystr) (validate_strategy : strategy)
  (downstream : ref -> M (list ref)) (c : ref) (h : heap) :
  validate_record field validate_strategy downstream c h
  = match conn_attr field with
    | None => (Raise "AttributeError", h)
    | Some attr =>
        match nth_error h c with
        | None => (Raise "ReferenceError", h)
        | Some r =>
            match validate_strategy (get_field attr r) with
            | Raise e => (Raise e, h)
            | Ok fs =>
                for_each fs
                  (fun f => conn <- derive c attr f ;; downstream conn) h
            end
        end
    end.
Proof.
  unfold validate_record.
  destruct (conn_attr field) as [attr|]; [|reflexivity].
  unfold bind at 1, deref.
  destruct (nth_error h c) as [r|]; [|reflexivity].
  unfold bind at 1, lift.
  destruct (validate_strategy (get_field attr r)); reflexivity.
Qed.

Ltac raised :=
  exists []; unfold raise; cbn; rewrite app_nil_r;
  split; [reflexivity|intros out Hraised; discriminate Hraised].

Lemma pull_fresh (stages : list (pystr * strategy)) :
  Forall (fun st => strategy_ok (snd st)) stages ->
  forall c h lo,
    lo <= length h ->
    (stages = [] -> lo <= c < length h) ->
    appends_fresh (pull stages c) lo h.
Proof.
  unfold appends_fresh.
  induction 1 as [|[field strat] stages Hs _ IH]; intros c h lo Hlo Hc.
  - exists []. cbn. rewrite app_nil_r. split; [reflexivity|].
    intros out [= <-]. apply fresh_sorted_one. now apply Hc.
  - cbn [pull]. rewrite validate_record_eq.
    destruct (conn_attr field) as [attr|]; [|raised].
    destruct (nth_error h c) as [r|]; [|raised].
    destruct (strat (get_field attr r)) as [fs|e] eqn:Efs; [|raised].
    cbn in Hs. specialize (Hs _ _ Efs).
    assert (Hbody : forall f h1, In f fs ->
      appends_fresh
        (conn <- derive c attr f ;; pull stages conn) (length h1) h1).
    { intros f h1 Hin. unfold appends_fresh.
      assert (Hok : candidate_ok f)
        by (rewrite Forall_forall in Hs; now apply Hs).
      destruct (derive_frame c attr f h1 Hok) as (e1 & S1 & B1).
      unfold bind.
      destruct (derive c attr f h1) as [[conn|e] h2];
        cbn in S1, B1; subst h2.
      - destruct (IH conn (h1 ++ e1) (length h1)) as (e2 & S2 & F2).
        + rewrite length_app. lia.
        + intros _. apply B1. reflexivity.
        + exists (e1 ++ e2). rewrite app_assoc. split; [exact S2|exact F2].
      - exists e1. cbn. split; [reflexivity|discriminate]. }
    destruct (for_each_fresh fs _ Hbody h) as (ext & S & F).
    exists ext. split; [exact S|].
    intros out Hout. eapply fresh_sorted_weaken; [exact Hlo| |apply F, Hout].
    lia.
Qed.

Lemma values_ok (l : list pystr) : Forall candidate_ok (map Value l).
Proof.
  induction l; cbn; constructor; cbn; auto.
Qed.

Lemma ok_forall (l fs : list candidate) :
  Ok l = Ok fs -> Forall candidate_ok l -> Forall candidate_ok fs.
Proof. intros [= <-] H. exact H. Qed.

Ltac one_value :=
  let H := fresh in
  intros H; refine (ok_forall _ _ H _);
  apply Forall_cons; [exact I|apply Forall_nil].

Lemma validate_house_field_ok : strategy_ok validate_house_field.
Proof.
  intros house fs. unfold validate_house_field.
  destruct (str_isdecimal house); [one_value|].
  destruct (re_match RE_BUILDING_NUMBER house); [one_value|].
  destruct (is_for_artificial_person house).
  { cbv zeta. intros H. refine (ok_forall _ _ H _).
    apply Forall_cons; [exact eq_refl|apply Forall_nil]. }
  destruct (str_in (u ",") house); [|one_value].
  cbv zeta. intros H. refine (ok_forall _ _ H _). apply values_ok.
Qed.

Lemma validate_street_field_ok : strategy_ok validate_street_field.
Proof.
  intros street fs. unfold validate_street_field, obind.
  destruct (Toponym_new street (u "улица")); [one_value|discriminate].
Qed.

Lemma validate_city_field_ok : strategy_ok validate_city_field.
Proof.
  intros city fs. unfold validate_city_field. cbv zeta. one_value.
Qed.

Lemma passthrough_ok (s : strategy) :
  (forall v, s v = Ok [Value v]) -> strategy_ok s.
Proof.
  intros Hs v fs. rewrite Hs. one_value.
Qed.

Lemma getattr_validator_ok (name : pystr) (s : strategy) :
  getattr_validator name = Ok s -> strategy_ok s.
Proof.
  unfold getattr_validator.
  destruct (str_eqb name (u "validate_city_field")).
  { intros [= <-]. apply validate_city_field_ok. }
  destruct (str_eqb name (u "validate_house_field")).
  { intros [= <-]. apply validate_house_field_ok. }
  destruct (str_eqb name (u "validate_status_field")).
  { intros [= <-]. now apply passthrough_ok. }
  destruct (str_eqb name (u "validate_region_field")).
  { intros [= <-]. now apply passthrough_ok. }
  destruct (str_eqb name (u "validate_provider_field")).
  { intros [= <-]. now apply passthrough_ok. }
  destruct (str_eqb name (u "validate_street_field")).
  { intros [= <-]. apply validate_street_field_ok. }
  discriminate.
Qed.

Lemma getattr_validator_raise (name : pystr) (e : string) :
  getattr_validator name = Raise e -> e = "AttributeError"%string.
Proof.
  unfold getattr_validator.
  repeat match goal with
         | |- context [if ?b then _ else _] => destruct b
         end; congruence.
Qed.

Lemma resolve_ok (fs : list pystr) (stages : list (pystr * strategy)) :
  resolve fs = Ok stages ->
  Forall (fun st => strategy_ok (snd st)) stages
  /\ length stages = length fs.
Proof.
  revert stages. induction fs as [|f fs IH]; intros stages; cbn [resolve].
  - intros [= <-]. split; [constructor|reflexivity].
  - destruct (resolve fs) as [stages'|]; cbn [obind];
      [|intros Hd; discriminate Hd].
    destruct (getattr_validator (strategy_name f)) as [s|] eqn:E;
      [|intros Hd; discriminate Hd].
    intros [= <-]. destruct (IH _ eq_refl) as [Hok Hlen]. split.
    + constructor; [exact (getattr_validator_ok _ _ E)|exact Hok].
    + cbn [length]. now rewrite Hlen.
Qed.

Lemma resolve_raise (fs : list pystr) (e : string) :
  resolve fs = Raise e -> e = "AttributeError"%string.
Proof.
  induction fs as [|f fs IH]; cbn [resolve]; [intros Hd; discriminate Hd|].
  destruct (resolve fs) as [stages'|e']; cbn [obind].
  - destruct (getattr_validator (strategy_name f)) as [s|e''] eqn:E;
      [intros Hd; discriminate Hd|].
    intros [= <-]. exact (getattr_validator_raise _ _ E).
  - intros [= <-]. now apply IH.
Qed.

Lemma resolve_missing (fs : list pystr) (f : pystr) :
  In f fs ->
  getattr_validator (strategy_name f) = Raise "AttributeError" ->
  resolve fs = Raise "AttributeError".
Proof.
  induction fs as [|g fs IH]; [easy|]. intros [->|Hin] Hf; cbn [resolve].
  - destruct (resolve fs) as [stages'|e'] eqn:E; cbn [obind].
    + now rewrite Hf.
    + now rewrite (resolve_raise _ _ E).
  - now rewrite (IH Hin Hf).
Qed.

Lemma init_fields_nonempty (a : pyarg) :
  fields (ConnectionValidator_init a) <> [].
Proof.
  unfold ConnectionValidator_init. cbn [fields].
  destruct a as [|[|n l]|[|p d]|[|p d]];
    cbn [truthy names_of negb map]; unfold DEFAULT_FIELDS;
    intros Hd; discriminate Hd.
Qed.

(** Every record that a field pass yields for [c] holds the value of [c]
    with the validated field overridden (and the status extended where the
    strategy asked for it), in the order of the strategy's results. *)
Lemma field_pass_content (attr : Field) (c : ref) (r : Connection)
  (fs : list candidate) :
  Forall candidate_ok fs ->
  forall h,
    nth_error h c = Some r ->
    exists out ext,
      for_each fs (fun f => conn <- derive c attr f ;; ret [conn]) h
      = (Ok out, h ++ ext)
      /\ Forall2
           (fun o f => nth_error (h ++ ext) o = Some (derived r attr f))
           out fs.
Proof.
  induction 1 as [|f fs Hf _ IH]; intros h Hc.
  - exists [], []. cbn. rewrite app_nil_r. split; [reflexivity|constructor].
  - destruct (derive_content c attr f h r Hf Hc) as (conn & e1 & E1 & B1 & N1).
    destruct (IH (h ++ e1) (nth_error_keep h e1 c r Hc))
      as (out & e2 & E2 & F2).
    exists (conn :: out), (e1 ++ e2).
    cbn [for_each]. unfold bind at 1 2. rewrite E1.
    unfold ret at 1. unfold bind at 1. rewrite E2. unfold ret.
    rewrite app_assoc. split; [reflexivity|].
    constructor; [|exact F2].
    rewrite nth_error_app1 by lia. exact N1.
Qed.

Lemma derived_other_fields (r : Connection) (attr g : Field) (f : candidate) :
  g <> attr -> (is_value f = true \/ g <> Status) ->
  get_field g (derived r attr f) = get_field g r.
Proof.
  intros Hg Hs. destruct f as [v|v cb]; cbn [derived].
  - destruct attr, g; try reflexivity; congruence.
  - destruct Hs as [Hs|Hs]; [discriminate|].
    destruct attr, g; try reflexivity; congruence.
Qed.

End PipelineFacts.

(** ** The field strategies and the Toponym parser *)

Section StrategyFacts.

Context {U : Unicode}.

Lemma house_decimal (house : pystr) :
  str_isdecimal house = true -> validate_house_field house = Ok [Value house].
Proof.
  intros H. unfold validate_house_field. now rewrite H.
Qed.

Lemma house_building (house : pystr) (m : re_match_obj) :
  str_isdecimal house = false ->
  re_match RE_BUILDING_NUMBER house = Some m ->
  validate_house_field house
  = Ok [Value (format_arg (groupdict "house_number" (m_groups m))
                 ++ u " (корпус "
                 ++ format_arg (groupdict "building" (m_groups m))
                 ++ u ")")].
Proof.
  intros Hd Hm. unfold validate_house_field. now rewrite Hd, Hm.
Qed.

Lemma house_artificial (house : pystr) :
  str_isdecimal house = false ->
  re_match RE_BUILDING_NUMBER house = None ->
  is_for_artificial_person house = true ->
  validate_house_field house
  = Ok [WithCallback
          (str_strip
             (str_replace (u "юр. лица") []
                (str_replace (u "ЮР. ЛИЦА") []
                   (str_replace (u "(юридические лица)") [] house))))
          status_update_callback].
Proof.
  intros Hd Hm Ha. unfold validate_house_field. now rewrite Hd, Hm, Ha.
Qed.

Lemma house_commas (house : pystr) :
  str_isdecimal house = false ->
  re_match RE_BUILDING_NUMBER house = None ->
  is_for_artificial_person house = false ->
  str_in (u ",") house = true ->
  validate_house_field house = Ok (map Value (house_segments_spec house)).
Proof.
  intros Hd Hm Ha Hc. unfold validate_house_field.
  rewrite Hd, Hm, Ha, Hc. cbv zeta.
  rewrite replace_spaces, split_without_spaces. reflexivity.
Qed.

(** The building-number pattern starts with a digit. *)
Lemma building_needs_digit (house : pystr) :
  match house with
  | [] => True
  | c :: _ => re_digit c = false
  end ->
  re_match RE_BUILDING_NUMBER house = None.
Proof.
  intros H. unfold re_match, RE_BUILDING_NUMBER.
  cbn [re_run]. destruct house as [|c house]; [reflexivity|].
  now rewrite H.
Qed.

Lemma commas_and_spaces_ascii (house : pystr) :
  commas_and_spaces house -> Forall (fun c => (c < 128)%N) house.
Proof.
  apply Forall_impl. intros c [->| ->]; reflexivity.
Qed.

Lemma commas_and_spaces_lower (house : pystr) :
  commas_and_spaces house -> str_lower house = house.
Proof.
  intros H. rewrite lower_ascii by now apply commas_and_spaces_ascii.
  induction H as [|c house Hc _ IH]; [reflexivity|].
  cbn [map]. rewrite IH. now destruct Hc as [->| ->].
Qed.

Lemma str_in_first_absent (needle : pystr) (x : cp) (p s : pystr) :
  needle = x :: p -> ~ In x s -> str_in needle s = false.
Proof.
  intros ->. apply str_in_head_absent.
Qed.

Lemma commas_and_spaces_not_artificial (house : pystr) :
  commas_and_spaces house -> is_for_artificial_person house = false.
Proof.
  intros H. unfold is_for_artificial_person.
  rewrite (commas_and_spaces_lower _ H). cbv zeta.
  assert (Hyu : ~ In 1102%N house).
  { intros Hin. unfold commas_and_spaces in H. rewrite Forall_forall in H.
    destruct (H _ Hin) as [E|E]; discriminate E. }
  apply orb_false_intro.
  - apply str_in_first_absent with (x := 1102%N) (p := tl (u "юр. лица"));
      [vm_compute; reflexivity|exact Hyu].
  - apply str_in_first_absent
      with (x := 1102%N) (p := tl (u "юридические лица"));
      [vm_compute; reflexivity|exact Hyu].
Qed.

Lemma house_only_commas (house : pystr) :
  In 44%N house -> commas_and_spaces house ->
  validate_house_field house = Ok [].
Proof.
  intros Hin Hcs.
  assert (Hfirst : match house with
                   | [] => True
                   | c :: _ => re_digit c = false
                   end).
  { destruct Hcs as [|c house [->| ->] _]; [exact I| |];
      now rewrite re_digit_ascii. }
  rewrite house_commas.
  - f_equal. unfold house_segments_spec.
    rewrite <- split_without_spaces.
    replace (filter _ _) with (@nil pystr); [reflexivity|].
    symmetry. apply filter_none.
    eapply Forall_impl; [|apply str_split_all_commas].
    + now intros seg ->.
    + unfold without_spaces. clear Hin Hfirst.
      induction Hcs as [|c house Hc _ IH]; [constructor|].
      cbn [filter]. destruct Hc as [->| ->]; cbn; auto.
  - unfold str_isdecimal.
    rewrite (forallb_false chr_isdecimal 44%N house Hin).
    + apply andb_false_r.
    + now rewrite isdecimal_ascii.
  - now apply building_needs_digit.
  - now apply commas_and_spaces_not_artificial.
  - rewrite u_comma. now apply str_in_single.
Qed.

Lemma dict_getitem_present {V} (d : list (pystr * V)) (key : pystr) :
  dict_contains d key = true -> exists v, dict_getitem d key = Ok v.
Proof.
  unfold dict_contains, dict_getitem.
  destruct (dict_get d key) as [v|]; [eauto|discriminate].
Qed.

Lemma tokenize_total (default_type name : pystr) :
  exists ty nm,
    tokenize default_type name = Ok (Some ty, nm)
    /\ (dict_contains MANUAL_MAP name = false ->
        fst (_extract_type_and_name name) = None ->
        ty = default_type).
Proof.
  unfold tokenize.
  destruct (dict_contains MANUAL_MAP name) eqn:Hin.
  - destruct (dict_getitem_present _ _ Hin) as ([ty nm] & E).
    rewrite E. cbn [obind fst snd]. exists ty, nm.
    split; [reflexivity|intros Hd; discriminate Hd].
  - destruct (_extract_type_and_name name) as [[ty|] nm].
    + exists ty, (_normalize_name nm). split; [reflexivity|].
      intros _ Hd; discriminate Hd.
    + exists default_type, (_normalize_name nm). split; auto.
Qed.

Lemma validate_connections_missing (v : ConnectionValidator)
  (connections : list ref) (h : heap) (f : pystr) :
  In f (fields v) ->
  getattr_validator (strategy_name f) = Raise "AttributeError" ->
  validate_connections v connections h = (Raise "AttributeError", h).
Proof.
  intros Hin Hf. unfold validate_connections, bind, lift.
  now rewrite (resolve_missing _ _ Hin Hf).
Qed.

Lemma validate_connections_fresh (a : pyarg) (connections : list ref)
  (h : heap) :
  appends_fresh
    (validate_connections (ConnectionValidator_init a) connections)
    (length h) h.
Proof.
  unfold appends_fresh, validate_connections, bind, lift.
  destruct (resolve (fields (ConnectionValidator_init a)))
    as [stages|e] eqn:E.
  - destruct (resolve_ok _ _ E) as [Hok Hlen].
    apply (for_each_fresh connections (pull stages)).
    intros c h1 _. apply pull_fresh; [exact Hok|lia|].
    intros ->. exfalso. apply (init_fields_nonempty a).
    destruct (fields (ConnectionValidator_init a)); [reflexivity|].
    discriminate Hlen.
  - exists []. cbn. rewrite app_nil_r.
    split; [reflexivity|intros out Hd; discriminate Hd].
Qed.

Lemma validate_field_content (field : pystr) (attr : Field)
  (strat : strategy) (c : ref) (r : Connection) (fs : list candidate)
  (h : heap) :
  conn_attr field = Some attr ->
  getattr_validator (strategy_name field) = Ok strat ->
  nth_error h c = Some r ->
  strat (get_field attr r) = Ok fs ->
  exists out ext,
    __validate_field [c] field h = (Ok out, h ++ ext)
    /\ Forall2 (fun o f => nth_error (h ++ ext) o = Some (derived r attr f))
         out fs.
Proof.
  intros Hattr Hstrat Hc Hfs.
  destruct (field_pass_content attr c r fs
              (getattr_validator_ok _ _ Hstrat _ _ Hfs) h Hc)
    as (out & ext & E & F).
  exists out, ext. split; [|exact F].
  unfold __validate_field, bind at 1, lift. rewrite Hstrat.
  cbn [for_each pull]. unfold bind at 1.
  rewrite validate_record_eq, Hattr, Hc, Hfs.
  change (fun f => conn <- derive c attr f;; pull [] conn)
    with (fun f => conn <- derive c attr f;; ret [conn]).
  rewrite E. unfold bind, ret. now rewrite app_nil_r.
Qed.

End StrategyFacts.

(** ** The segments of a comma-separated house value *)

Section SegmentFacts.

Lemma str_split_no_sep (sep : cp) (s : pystr) :
  Forall (fun seg => ~ In sep seg) (str_split sep s).
Proof.
  induction s as [|c s IH]; cbn [str_split].
  - constructor; [easy|constructor].
  - destruct (cp_eqb c sep) eqn:E.
    + constructor; [easy|exact IH].
    + apply cp_eqb_neq in E.
      destruct (str_split sep s) as [|seg segs].
      * constructor; [|constructor]. intros [->|[]]. now apply E.
      * inversion IH as [|? ? Hseg Hsegs]; subst.
        constructor; [|exact Hsegs]. intros [->|Hin]; [now apply E|].
        now apply Hseg.
Qed.

Lemma without_spaces_in (c : cp) (s : pystr) :
  In c (without_spaces s) -> In c s /\ c <> 32%N.
Proof.
  unfold without_spaces. rewrite filter_In. intros [Hin Hc]. split; [exact Hin|].
  intros ->. discriminate Hc.
Qed.

Lemma segments_clean (house : pystr) :
  Forall (fun seg => seg <> [] /\ ~ In 32%N seg /\ ~ In 44%N seg)
    (house_segments_spec house).
Proof.
  unfold house_segments_spec. apply Forall_forall. intros seg Hin.
  apply filter_In in Hin. destruct Hin as [Hin Hne].
  apply in_map_iff in Hin. destruct Hin as (raw & <- & Hraw).
  pose proof (str_split_no_sep 44%N house) as Hsep.
  rewrite Forall_forall in Hsep. specialize (Hsep _ Hraw).
  repeat split.
  - intros E. rewrite E in Hne. discriminate Hne.
  - intros H32. now destruct (without_spaces_in _ _ H32).
  - intros H44. apply Hsep. now destruct (without_spaces_in _ _ H44).
Qed.

Lemma segments_trailing_comma (house : pystr) :
  house_segments_spec (house ++ [44%N]) = house_segments_spec house.
Proof.
  unfold house_segments_spec.
  rewrite str_split_trailing, map_app, filter_app. cbn. apply app_nil_r.
Qed.

End SegmentFacts.

(** ** Running one field pass *)

Section PassFacts.

Context {U : Unicode}.

Lemma derive_callback_eq (c : ref) (attr : Field) (v : pystr) (h : heap)
  (r : Connection) :
  nth_error h c = Some r ->
  derive c attr (WithCallback v status_update_callback) h
  = (Ok (length h),
     h ++ [derived r attr (WithCallback v status_update_callback)]).
Proof.
  intros Hc. unfold derive, bind, ret, from_modified_connection.
  rewrite Hc. cbn [fold_left fst snd].
  now rewrite status_update_callback_last.
Qed.

(** A field pass over one record whose strategy returns nothing: no record
    is yielded, nothing is built, nothing is raised. *)
Lemma pull_nothing (field : pystr) (attr : Field) (strat : strategy)
  (stages : list (pystr * strategy)) (c : ref) (r : Connection) (h : heap) :
  conn_attr field = Some attr ->
  nth_error h c = Some r ->
  strat (get_field attr r) = Ok [] ->
  pull ((field, strat) :: stages) c h = (Ok [], h).
Proof.
  intros Hattr Hc Hfs. cbn [pull].
  now rewrite validate_record_eq, Hattr, Hc, Hfs.
Qed.

Lemma resolve_default :
  resolve DEFAULT_FIELDS
  = Ok [(u "house", validate_house_field);
        (u "provider", validate_provider_field);
        (u "region", validate_region_field);
        (u "city", validate_city_field);
        (u "street", validate_street_field);
        (u "status", validate_status_field)].
Proof. reflexivity. Qed.

Lemma getattr_house :
  getattr_validator (strategy_name (u "house")) = Ok validate_house_field.
Proof. reflexivity. Qed.

Lemma conn_attr_house : conn_attr (u "house") = Some House.
Proof. reflexivity. Qed.

Lemma house_pass_callback (h : heap) (c : ref) (r : Connection)
  (v : pystr) :
  nth_error h c = Some r ->
  validate_house_field (house r)
  = Ok [WithCallback v status_update_callback] ->
  _validate_house [c] h
  = (Ok [length h],
     h ++ [derived r House (WithCallback v status_update_callback)]).
Proof.
  intros Hc Hv.
  unfold _validate_house, __validate_field, bind at 1, lift.
  rewrite getattr_house. cbn [for_each pull]. unfold bind at 1.
  rewrite validate_record_eq, conn_attr_house, Hc.
  cbn [get_field]. rewrite Hv.
  cbn [for_each]. unfold bind at 1 2.
  rewrite (derive_callback_eq c House v h r Hc).
  reflexivity.
Qed.

Lemma status_set_house (v : pystr) (r : Connection) :
  status (set_field House v r) = status r.
Proof. reflexivity. Qed.

End PassFacts.

(** ** What a match of the building-number pattern looks like *)

Section MatcherFacts.

Variable R : Type.

Lemma or_else_some (a b : option R) (x : R) :
  or_else a b = Some x -> a = Some x \/ b = Some x.
Proof.
  destruct a; cbn; auto.
Qed.

Lemma star_run_inv (p : cp -> bool) (k : kont R) (s : pystr) :
  forall i g x,
    star_run p k i s g = Some x ->
    exists n,
      n <= length s /\ forallb p (firstn n s) = true
      /\ k (i + n) (skipn n s) g = Some x.
Proof.
  induction s as [|c s IH]; intros i g x H.
  - exists 0. cbn in *. rewrite Nat.add_0_r. auto.
  - cbn [star_run] in H.
    assert (Hzero : k i (c :: s) g = Some x ->
      exists n, n <= length (c :: s)
                /\ forallb p (firstn n (c :: s)) = true
                /\ k (i + n) (skipn n (c :: s)) g = Some x).
    { intros Hk. exists 0. cbn [firstn skipn forallb].
      rewrite Nat.add_0_r. repeat split; [lia|exact Hk]. }
    destruct (p c) eqn:Hp; [|now apply Hzero].
    apply or_else_some in H. destruct H as [H|H]; [|now apply Hzero].
    destruct (IH _ _ _ H) as (n & Hn & Hall & Hk).
    exists (S n). cbn [firstn skipn forallb length].
    rewrite Hp, Hall, Nat.add_succ_r. repeat split; [lia|exact Hk].
Qed.

Lemma plus_run_inv (p : cp -> bool) (k : kont R) (s : pystr) (i : nat)
  (g : groups) (x : R) :
  re_run (Plus p) i s g k = Some x ->
  exists n,
    1 <= n <= length s /\ forallb p (firstn n s) = true
    /\ k (i + n) (skipn n s) g = Some x.
Proof.
  cbn [re_run]. destruct s as [|c s]; [intros Hd; discriminate Hd|].
  destruct (p c) eqn:Hp; [|intros Hd; discriminate Hd].
  intros H. destruct (star_run_inv _ _ _ _ _ _ H) as (n & Hn & Hall & Hk).
  exists (S n). cbn [firstn skipn forallb length].
  rewrite Hp, Hall, Nat.add_succ_r. repeat split; [lia|lia|exact Hk].
Qed.

Lemma chr_run_inv (p : cp -> bool) (k : kont R) (s : pystr) (i : nat)
  (g : groups) (x : R) :
  re_run (Chr p) i s g k = Some x ->
  exists c s', s = c :: s' /\ p c = true /\ k (S i) s' g = Some x.
Proof.
  cbn [re_run]. destruct s as [|c s]; [intros Hd; discriminate Hd|].
  destruct (p c) eqn:Hp; [|intros Hd; discriminate Hd].
  intros H. now exists c, s.
Qed.

End MatcherFacts.

Lemma firstn_skipn_nonempty {A} (n : nat) (l : list A) :
  1 <= n <= length l -> firstn n l <> [].
Proof.
  destruct n, l; cbn; try lia; intros _ Hd; discriminate Hd.
Qed.

Section BuildingFacts.

Context {U : Unicode}.

Lemma RE_BUILDING_NUMBER_eq :
  RE_BUILDING_NUMBER
  = (Bol
     +> Group "house_number" (Plus re_digit)
     +> Opt (Chr (cp_eqb 44))
     +> Group "delimiter" (Alt (Star delimiter_class) building_marker)
     +> building_tail)%re.
Proof. reflexivity. Qed.

Lemma eol_run_inv {R} (k : kont R) (s : pystr) (i : nat) (g : groups)
  (x : R) :
  re_run Eol i s g k = Some x ->
  (s = [] \/ s = [10%N]) /\ k i s g = Some x.
Proof.
  cbn [re_run]. destruct s as [|c [|c' s]]; auto.
  - destruct (cp_eqb c 10) eqn:E; [|intros Hd; discriminate Hd].
    apply cp_eqb_eq in E. subst. auto.
  - intros Hd; discriminate Hd.
Qed.

Lemma group_plus_inv {R} (name : string) (p : cp -> bool) (k : kont R)
  (s : pystr) (i : nat) (g : groups) (x : R) :
  re_run (Group name (Plus p)) i s g k = Some x ->
  exists n,
    1 <= n <= length s /\ forallb p (firstn n s) = true
    /\ k (i + n) (skipn n s) ((name, firstn n s) :: g) = Some x.
Proof.
  intros H.
  change (re_run (Plus p) i s g
            (fun i' s' g' => k i' s' ((name, firstn (i' - i) s) :: g'))
          = Some x) in H.
  apply plus_run_inv in H. destruct H as (n & Hn & Hall & Hk).
  exists n. replace (i + n - i) with n in Hk by lia. auto.
Qed.

Lemma building_tail_inv (s : pystr) (i : nat) (g : groups)
  (m : re_match_obj) :
  re_run building_tail i s g finish = Some m ->
  exists b nl : pystr,
    s = b ++ nl /\ b <> [] /\ forallb re_word b = true
    /\ (nl = [] \/ nl = [10%N])
    /\ m_groups m = ("building"%string, b) :: g.
Proof.
  intros H.
  change (re_run (Group "building" (Plus re_word)) i s g
            (fun i' s' g' => re_run Eol i' s' g' finish) = Some m) in H.
  apply group_plus_inv in H. destruct H as (n & Hn & Hall & Hk).
  apply eol_run_inv in Hk. destruct Hk as [Hnl Hk].
  injection Hk as <-.
  exists (firstn n s), (skipn n s).
  rewrite firstn_skipn. repeat split; auto.
  now apply firstn_skipn_nonempty.
Qed.

Lemma seq_run_inv {R} (r1 r2 : re) (k : kont R) (s : pystr) (i : nat)
  (g : groups) (x : R) :
  re_run (Seq r1 r2) i s g k = Some x ->
  re_run r1 i s g (fun i' s' g' => re_run r2 i' s' g' k) = Some x.
Proof. intros H. exact H. Qed.

Lemma alt_run_inv {R} (r1 r2 : re) (k : kont R) (s : pystr) (i : nat)
  (g : groups) (x : R) :
  re_run (Alt r1 r2) i s g k = Some x ->
  re_run r1 i s g k = Some x \/ re_run r2 i s g k = Some x.
Proof. intros H. apply or_else_some. exact H. Qed.

Lemma opt_run_inv {R} (r : re) (k : kont R) (s : pystr) (i : nat)
  (g : groups) (x : R) :
  re_run (Opt r) i s g k = Some x ->
  re_run r i s g k = Some x \/ k i s g = Some x.
Proof. intros H. apply or_else_some. exact H. Qed.

Lemma literal_run_inv {R} (c : cp) (k : kont R) (s : pystr) (i : nat)
  (g : groups) (x : R) :
  re_run (Chr (cp_eqb c)) i s g k = Some x ->
  exists s', s = c :: s' /\ k (S i) s' g = Some x.
Proof.
  intros H. apply chr_run_inv in H. destruct H as (c' & s' & -> & E & H).
  apply cp_eqb_eq in E. subst c'. now exists s'.
Qed.

Lemma building_marker_inv {R} (k : kont R) (s : pystr) (i : nat)
  (g : groups) (x : R) :
  re_run building_marker i s g k = Some x ->
  exists c sp s',
    (c = 1082%N \/ c = 1050%N) /\ (sp = [] \/ sp = [32%N])
    /\ s = (32%N :: c :: 46%N :: sp) ++ s'
    /\ k (i + length (32%N :: c :: 46%N :: sp)) s' g = Some x.
Proof.
  intros H. unfold building_marker in H.
  apply seq_run_inv, literal_run_inv in H. destruct H as (s1 & -> & H).
  apply seq_run_inv, alt_run_inv in H.
  assert (Hc : exists c s2,
    (c = 1082%N \/ c = 1050%N) /\ s1 = c :: s2
    /\ re_run (Seq (Chr (cp_eqb 46)) (Opt (Chr (cp_eqb 32))))
         (S (S i)) s2 g k = Some x).
  { destruct H as [H|H]; apply literal_run_inv in H;
      destruct H as (s2 & -> & H); eauto 6. }
  clear H. destruct Hc as (c & s2 & Hc & -> & H).
  apply seq_run_inv, literal_run_inv in H. destruct H as (s3 & -> & H).
  apply opt_run_inv in H. destruct H as [H|H].
  - apply literal_run_inv in H. destruct H as (s4 & -> & H).
    exists c, [32%N], s4. cbn [length app].
    replace (i + 4) with (S (S (S (S i)))) by lia. auto.
  - exists c, [], s3. cbn [length app].
    replace (i + 3) with (S (S (S i))) by lia. auto.
Qed.

Lemma building_delimiter_inv (s : pystr) (i : nat) (g : groups)
  (m : re_match_obj) :
  re_run
    (Seq (Group "delimiter" (Alt (Star delimiter_class) building_marker))
       building_tail) i s g finish = Some m ->
  exists delim b nl : pystr,
    s = delim ++ b ++ nl /\ delimiter_ok delim
    /\ b <> [] /\ forallb re_word b = true
    /\ (nl = [] \/ nl = [10%N])
    /\ m_groups m
       = ("building"%string, b) :: ("delimiter"%string, delim) :: g.
Proof.
  intros H. apply seq_run_inv in H.
  change (re_run (Alt (Star delimiter_class) building_marker) i s g
            (fun i' s' g' =>
               re_run building_tail i' s'
                 (("delimiter"%string, firstn (i' - i) s) :: g') finish)
          = Some m) in H.
  apply alt_run_inv in H. destruct H as [H|H].
  - change (star_run delimiter_class
              (fun i' s' g' =>
                 re_run building_tail i' s'
                   (("delimiter"%string, firstn (i' - i) s) :: g') finish)
              i s g = Some m) in H.
    apply star_run_inv in H. destruct H as (n & Hn & Hall & H).
    cbv beta in H. replace (i + n - i) with n in H by lia.
    apply building_tail_inv in H.
    destruct H as (b & nl & Hs & Hb & Hw & Hnl & Hg).
    exists (firstn n s), b, nl. rewrite <- Hs, firstn_skipn.
    repeat split; auto. left. exact Hall.
  - apply building_marker_inv in H.
    destruct H as (c & sp & s' & Hc & Hsp & -> & H).
    cbv beta in H.
    replace (i + length (32%N :: c :: 46%N :: sp) - i)
      with (length (32%N :: c :: 46%N :: sp)) in H by lia.
    rewrite firstn_app, Nat.sub_diag, firstn_all, app_nil_r in H.
    apply building_tail_inv in H.
    destruct H as (b & nl & Hs & Hb & Hw & Hnl & Hg).
    exists (32%N :: c :: 46%N :: sp), b, nl. rewrite <- Hs.
    repeat split; auto. right. now exists c, sp.
Qed.

(** A match of the pattern splits the value into a house number of one or
    more digits, an optional comma, a delimiter, a building designator of
    one or more word characters and an optional final newline; the groups
    [house_number] and [building] hold the two parts. *)
Lemma building_match_shape (house : pystr) (m : re_match_obj) :
  re_match RE_BUILDING_NUMBER house = Some m ->
  exists house_number comma delim building nl : pystr,
    house = house_number ++ comma ++ delim ++ building ++ nl
    /\ house_number <> [] /\ forallb re_digit house_number = true
    /\ (comma = [] \/ comma = [44%N])
    /\ delimiter_ok delim
    /\ building <> [] /\ forallb re_word building = true
    /\ (nl = [] \/ nl = [10%N])
    /\ groupdict "house_number" (m_groups m) = Some house_number
    /\ groupdict "building" (m_groups m) = Some building.
Proof.
  unfold re_match. rewrite RE_BUILDING_NUMBER_eq. intros H.
  change (re_run
            (Seq (Group "house_number" (Plus re_digit))
               (Seq (Opt (Chr (cp_eqb 44)))
                  (Seq (Group "delimiter"
                          (Alt (Star delimiter_class) building_marker))
                     building_tail))) 0 house [] finish = Some m) in H.
  apply seq_run_inv, group_plus_inv in H.
  destruct H as (n & Hn & Hdigits & H). cbv beta in H.
  apply seq_run_inv, opt_run_inv in H.
  assert (Hrest : exists comma rest : pystr,
    (comma = [] \/ comma = [44%N]) /\ skipn n house = comma ++ rest
    /\ exists i,
         re_run
           (Seq (Group "delimiter"
                   (Alt (Star delimiter_class) building_marker))
              building_tail) i rest
           [("house_number"%string, firstn n house)] finish = Some m).
  { destruct H as [H|H].
    - apply literal_run_inv in H. destruct H as (rest & E & H).
      exists [44%N], rest. rewrite E. eauto.
    - exists [], (skipn n house). eauto. }
  clear H. destruct Hrest as (comma & rest & Hcomma & Hsk & i & H).
  apply building_delimiter_inv in H.
  destruct H as (delim & b & nl & Hs & Hd & Hb & Hw & Hnl & Hg).
  exists (firstn n house), comma, delim, b, nl.
  rewrite <- Hs, <- Hsk, firstn_skipn, Hg.
  repeat split; auto.
  now apply firstn_skipn_nonempty.
Qed.

End BuildingFacts.

(** ** The rules of the Toponym parser *)

Section ToponymFacts.

Context {U : Unicode}.

Lemma extract_first_match (pre post : list (re * pystr)) (rx : re)
  (ty name : pystr) (m : re_match_obj) :
  Forall (no_match name) pre ->
  re_search rx name = Some m ->
  extract_with (pre ++ (rx, ty) :: post) name
  = (Some ty,
     str_strip (str_replace (slice name (m_start m) (m_end m)) [] name)).
Proof.
  intros Hpre Hm. induction Hpre as [|[rx' ty'] pre Hnone _ IH].
  - cbn [app extract_with]. now rewrite Hm.
  - cbn [app extract_with]. unfold no_match in Hnone. cbn [fst] in Hnone.
    now rewrite Hnone.
Qed.

Lemma extract_no_match (rules : list (re * pystr)) (name : pystr) :
  Forall (no_match name) rules ->
  extract_with rules name = (None, str_strip name).
Proof.
  induction 1 as [|[rx ty] rules Hnone _ IH]; [reflexivity|].
  cbn [extract_with]. unfold no_match in Hnone. cbn [fst] in Hnone.
  now rewrite Hnone.
Qed.

End ToponymFacts.

(** ** Removing a text that does not occur *)

Section RemovalFacts.

Lemma replace_from_absent (old new s : pystr) :
  str_in old s = false -> replace_from old new 0 s = s.
Proof.
  induction s as [|c s IH]; [reflexivity|].
  cbn [str_in replace_from]. intros H.
  apply orb_false_elim in H. destruct H as [H1 H2].
  rewrite H1. now rewrite IH.
Qed.

Lemma replace_absent (old new s : pystr) :
  old <> [] -> str_in old s = false -> str_replace old new s = s.
Proof.
  intros Hne H. destruct old as [|c old]; [now destruct Hne|].
  unfold str_replace. now apply replace_from_absent.
Qed.

Lemma replace3_absent (a b c s : pystr) :
  a <> [] -> b <> [] -> c <> [] ->
  str_in a s = false -> str_in b s = false -> str_in c s = false ->
  str_replace c [] (str_replace b [] (str_replace a [] s)) = s.
Proof.
  intros Ha Hb Hc Ia Ib Ic.
  rewrite (replace_absent a [] s Ha Ia).
  rewrite (replace_absent b [] s Hb Ib).
  exact (replace_absent c [] s Hc Ic).
Qed.

End RemovalFacts.

Section MarkerFacts.

Context {U : Unicode}.

Lemma marker_spellings_nonempty :
  u "(юридические лица)" <> [] /\ u "ЮР. ЛИЦА" <> [] /\ u "юр. лица" <> [].
Proof.
  repeat split; intros Hd; vm_compute in Hd; discriminate Hd.
Qed.

Lemma house_marker_kept (house : pystr) :
  str_isdecimal house = false ->
  re_match RE_BUILDING_NUMBER house = None ->
  is_for_artificial_person house = true ->
  str_in (u "(юридические лица)") house = false ->
  str_in (u "ЮР. ЛИЦА") house = false ->
  str_in (u "юр. лица") house = false ->
  validate_house_field house
  = Ok [WithCallback (str_strip house) status_update_callback].
Proof.
  intros Hd Hm Ha I1 I2 I3.
  rewrite (house_artificial house Hd Hm Ha).
  destruct marker_spellings_nonempty as (N1 & N2 & N3).
  apply (f_equal
           (fun v => Ok [WithCallback (str_strip v) status_update_callback])).
  exact (replace3_absent _ _ _ house N1 N2 N3 I1 I2 I3).
Qed.

End MarkerFacts.

(** * Properties of the validators *)

(** C1.  The constructor has the single parameter [fields]: a call that
    passes [pre_replacement_street_map] raises [TypeError], and the street
    strategy consults no replacement map, so that the street "тест" becomes
    "улица Тест" (not "улица новая тестовая"), by the strategy itself and
    through [validate_connections] of a default validator. *)
Theorem pre_replacement_street_map_not_supported :
  ConnectionValidator_new
    [("pre_replacement_street_map"%string,
      PyStreetMap [(u "тест", (u "улица", u "новая тестовая"))])]
  = Raise "TypeError"
  /\ @validate_street_field ucd (u "тест") = Ok [Value (u "улица Тест")]
  /\ only_street
       (@validate_connections ucd (ConnectionValidator_init PyNone) [0]
          [create_connection (u "тест") (u "1") []])
     = Some (u "улица Тест")
  /\ str_eqb (u "улица Тест") (u "улица новая тестовая") = false.
Proof.
  repeat split; vm_compute; reflexivity.
Qed.

(** C2.  [validate_connections] never mutates a record it is given.
    - Run from any store, a validator only appends objects to the store (so
      every object that was there, the input records included, is
      unchanged), and the records it yields are new objects, pairwise
      distinct.
    - A field pass over a record yields, for each result of the strategy,
      a new object holding the derived record.
    - The derived record differs from its parent in the validated field
      only, and in the status as well when the result carried a callback. *)
Theorem validate_connections_never_mutates :
  (forall (U : Unicode) (a : pyarg) (connections : list ref) (h : heap),
      appends_fresh
        (@validate_connections U (ConnectionValidator_init a) connections)
        (length h) h)
  /\ (forall (U : Unicode) (field : pystr) (attr : Field) (strat : strategy)
             (c : ref) (r : Connection) (fs : list candidate) (h : heap),
         conn_attr field = Some attr ->
         @getattr_validator U (strategy_name field) = Ok strat ->
         nth_error h c = Some r ->
         strat (get_field attr r) = Ok fs ->
         exists out ext,
           @__validate_field U [c] field h = (Ok out, h ++ ext)
           /\ Forall2
                (fun o f => nth_error (h ++ ext) o = Some (derived r attr f))
                out fs)
  /\ (forall (r : Connection) (attr g : Field) (f : candidate),
         g <> attr -> (is_value f = true \/ g <> Status) ->
         get_field g (derived r attr f) = get_field g r).
Proof.
  split; [|split].
  - intros U a connections h. apply validate_connections_fresh.
  - intros U field attr strat c r fs h Hattr Hstrat Hc Hfs.
    now apply validate_field_content with (strat := strat).
  - intros r attr g f Hg Hs. now apply derived_other_fields.
Qed.

Lemma validate_connections_never_mutates_witness :
  exists out ext,
    @__validate_field ucd [0] (u "house")
      [create_connection (u "test") (u "20,30") []]
    = (Ok out, [create_connection (u "test") (u "20,30") []] ++ ext)
    /\ Forall2
         (fun o f =>
            nth_error ([create_connection (u "test") (u "20,30") []] ++ ext) o
            = Some (derived (create_connection (u "test") (u "20,30") [])
                      House f))
         out [Value (u "20 (корпус 30)")].
Proof.
  apply (proj1 (proj2 validate_connections_never_mutates) ucd (u "house")
           House validate_house_field 0
           (create_connection (u "test") (u "20,30") [])
           [Value (u "20 (корпус 30)")]
           [create_connection (u "test") (u "20,30") []]).
  - reflexivity.
  - reflexivity.
  - reflexivity.
  - vm_compute. reflexivity.
Defined.

(** C3.  A house value that is purely decimal is returned unchanged as the
    only element; otherwise a value that matches the building-number pattern
    (one or more digits, an optional comma, a delimiter, one or more word
    characters) is returned as "{house_number} (корпус {building})", as for
    "8 к.4" and "119, к.1". *)
Theorem validate_house_field_decimal_or_building :
  (forall (U : Unicode) (house : pystr),
      str_isdecimal house = true ->
      @validate_house_field U house = Ok [Value house])
  /\ (forall (U : Unicode) (house : pystr) (m : re_match_obj),
         str_isdecimal house = false ->
         re_match RE_BUILDING_NUMBER house = Some m ->
         exists house_number comma delim building nl : pystr,
           house = house_number ++ comma ++ delim ++ building ++ nl
           /\ house_number <> [] /\ forallb re_digit house_number = true
           /\ (comma = [] \/ comma = [44%N])
           /\ delimiter_ok delim
           /\ building <> [] /\ forallb re_word building = true
           /\ (nl = [] \/ nl = [10%N])
           /\ @validate_house_field U house
              = Ok [Value (house_number ++ u " (корпус " ++ building
                             ++ u ")")])
  /\ @validate_house_field ucd (u "8 к.4") = Ok [Value (u "8 (корпус 4)")]
  /\ @validate_house_field ucd (u "119, к.1")
     = Ok [Value (u "119 (корпус 1)")].
Proof.
  split; [|split; [|split]].
  - intros U house H. now apply house_decimal.
  - intros U house m Hd Hm.
    destruct (building_match_shape house m Hm)
      as (hn & comma & delim & b & nl & Hs & Hhn & Hdig & Hcomma & Hdelim
          & Hb & Hw & Hnl & Ghn & Gb).
    exists hn, comma, delim, b, nl.
    rewrite (house_building house m Hd Hm), Ghn, Gb.
    cbn [format_arg]. repeat split; auto.
  - vm_compute. reflexivity.
  - vm_compute. reflexivity.
Qed.

Lemma validate_house_field_decimal_or_building_witness :
  @validate_house_field ucd (u "29") = Ok [Value (u "29")]
  /\ exists house_number building : pystr,
       @validate_house_field ucd (u "29/1")
       = Ok [Value (house_number ++ u " (корпус " ++ building ++ u ")")].
Proof.
  split.
  - apply (proj1 validate_house_field_decimal_or_building ucd (u "29")).
    vm_compute. reflexivity.
  - destruct (proj1 (proj2 validate_house_field_decimal_or_building) ucd
                (u "29/1")
                (MatchObj 0 4
                   [("building"%string, u "1"); ("delimiter"%string, u "/");
                    ("house_number"%string, u "29")]))
      as (hn & _ & _ & b & _ & _ & _ & _ & _ & _ & _ & _ & _ & E).
    + vm_compute. reflexivity.
    + vm_compute. reflexivity.
    + exists hn, b. exact E.
Defined.

(** C4.  The artificial-person branch returns one (value, callback) pair
    and the callback appends " (юридические лица)" to the status of the
    record it is given: the house "2 ЮР. ЛИЦА" of a record whose status is
    "Here I am" yields exactly one record, a new one, with house "2" and
    status "Here I am (юридические лица)".  But the marker is not always
    stripped.  It is detected in the lower-cased value, in any letter case
    and without parentheses, while only the three spellings
    "(юридические лица)", "ЮР. ЛИЦА" and "юр. лица" are removed: a value
    that reaches the branch and contains none of the three is returned
    trimmed and otherwise unchanged.  So "2 Юр. лица" and
    "5 юридические лица" are flagged in the status and keep the marker in
    the house value, which the detection still recognises. *)
Theorem artificial_marker_survives_removal :
  (forall (U : Unicode) (house : pystr),
      str_isdecimal house = false ->
      re_match RE_BUILDING_NUMBER house = None ->
      is_for_artificial_person house = true ->
      str_in (u "(юридические лица)") house = false ->
      str_in (u "ЮР. ЛИЦА") house = false ->
      str_in (u "юр. лица") house = false ->
      @validate_house_field U house
      = Ok [WithCallback (str_strip house) status_update_callback])
  /\ (forall (h : heap) (c : ref) (r : Connection),
         nth_error h c = Some r ->
         house r = u "2 Юр. лица" ->
         status r = u "Here I am" ->
         @_validate_house ucd [c] h
         = (Ok [length h],
            h ++ [set_field Status (u "Here I am (юридические лица)")
                    (set_field House (u "2 Юр. лица") r)]))
  /\ @is_for_artificial_person ucd (u "2 Юр. лица") = true
  /\ @validate_house_field ucd (u "5 юридические лица")
     = Ok [WithCallback (u "5 юридические лица") status_update_callback]
  /\ @is_for_artificial_person ucd (u "5 юридические лица") = true
  /\ (forall (h : heap) (c : ref) (r : Connection),
         nth_error h c = Some r ->
         house r = u "2 ЮР. ЛИЦА" ->
         status r = u "Here I am" ->
         @_validate_house ucd [c] h
         = (Ok [length h],
            h ++ [set_field Status (u "Here I am (юридические лица)")
                    (set_field House (u "2") r)])).
Proof.
  split; [|split; [|split; [|split; [|split]]]].
  - intros U house Hd Hm Ha I1 I2 I3. now apply house_marker_kept.
  - intros h c r Hc Hhouse Hstatus.
    rewrite (@house_pass_callback ucd h c r (u "2 Юр. лица") Hc).
    + unfold derived. rewrite status_set_house, Hstatus.
      replace (u "Here I am" ++ u " (юридические лица)")
        with (u "Here I am (юридические лица)") by (vm_compute; reflexivity).
      reflexivity.
    + rewrite Hhouse. vm_compute. reflexivity.
  - vm_compute. reflexivity.
  - vm_compute. reflexivity.
  - vm_compute. reflexivity.
  - intros h c r Hc Hhouse Hstatus.
    rewrite (@house_pass_callback ucd h c r (u "2") Hc).
    + unfold derived. rewrite status_set_house, Hstatus.
      replace (u "Here I am" ++ u " (юридические лица)")
        with (u "Here I am (юридические лица)") by (vm_compute; reflexivity).
      reflexivity.
    + rewrite Hhouse. vm_compute. reflexivity.
Qed.

Lemma artificial_marker_survives_removal_witness :
  @validate_house_field ucd (u " 2 Юр. лица")
  = Ok [WithCallback (@str_strip ucd (u " 2 Юр. лица"))
          status_update_callback]
  /\ @_validate_house ucd [0]
       [create_connection (u "test") (u "2 Юр. лица") (u "Here I am")]
     = (Ok [1],
        [create_connection (u "test") (u "2 Юр. лица") (u "Here I am");
         create_connection (u "test") (u "2 Юр. лица")
           (u "Here I am (юридические лица)")]).
Proof.
  split.
  - apply (proj1 artificial_marker_survives_removal ucd (u " 2 Юр. лица"));
      vm_compute; reflexivity.
  - apply (proj1 (proj2 artificial_marker_survives_removal)
             [create_connection (u "test") (u "2 Юр. лица") (u "Here I am")]
             0
             (create_connection (u "test") (u "2 Юр. лица") (u "Here I am")));
      reflexivity.
Defined.

(** C5 fails as stated: only the space character U+0020 is removed, other
    white space stays in the segments.  The value "20,<TAB>30,40" matches
    none of the earlier branches and its second segment keeps the tab. *)
Lemma tab_survives_comma_split :
  @validate_house_field ucd (u "20," ++ 9%N :: u "30,40")
  = Ok [Value (u "20"); Value (9%N :: u "30"); Value (u "40")]
  /\ @chr_isspace ucd 9%N = true
  /\ @re_space ucd 9%N = true.
Proof.
  repeat split; vm_compute; reflexivity.
Qed.

(** C5, amended.  For every house value that contains a comma and matches
    none of the earlier branches, the strategy removes every space character
    (U+0020, and no other white space), splits on commas and discards the
    empty segments: the result is the list of the comma-separated segments
    with their spaces removed, without those left empty.  No output is
    empty or contains a space or a comma, and a trailing comma adds no
    output: "20,30, 40" and "20,30,40," both give "20", "30", "40". *)
Theorem comma_separated_house_values :
  (forall (U : Unicode) (house : pystr),
      str_isdecimal house = false ->
      re_match RE_BUILDING_NUMBER house = None ->
      is_for_artificial_person house = false ->
      str_in (u ",") house = true ->
      @validate_house_field U house
      = Ok (map Value (house_segments_spec house)))
  /\ (forall house : pystr,
         Forall (fun seg => seg <> [] /\ ~ In 32%N seg /\ ~ In 44%N seg)
           (house_segments_spec house))
  /\ (forall house : pystr,
         house_segments_spec (house ++ [44%N]) = house_segments_spec house)
  /\ @validate_house_field ucd (u "20,30, 40")
     = Ok [Value (u "20"); Value (u "30"); Value (u "40")]
  /\ @validate_house_field ucd (u "20,30,40,")
     = Ok [Value (u "20"); Value (u "30"); Value (u "40")].
Proof.
  split; [|split; [|split; [|split]]].
  - intros U house Hd Hm Ha Hc. now apply house_commas.
  - apply segments_clean.
  - apply segments_trailing_comma.
  - vm_compute. reflexivity.
  - vm_compute. reflexivity.
Qed.

Lemma comma_separated_house_values_witness :
  @validate_house_field ucd (u "20, 30 ,40")
  = Ok (map Value (house_segments_spec (u "20, 30 ,40"))).
Proof.
  apply (proj1 comma_separated_house_values ucd (u "20, 30 ,40"));
    vm_compute; reflexivity.
Defined.

(** C6.  The strategy always returns a single value.  When the city ends
    in " п", every occurrence of " п" is removed, not only the trailing one:
    "Новая поляна п" becomes "Новаяоляна".  The two values named by the
    claim are normalised as it says. *)
Theorem city_suffix_removed_everywhere :
  (forall (U : Unicode) (city : pystr),
      exists v, @validate_city_field U city = Ok [Value v])
  /\ @validate_city_field ucd (u "Новая поляна п")
     = Ok [Value (u "Новаяоляна")]
  /\ endswith (u " п") (u "Новая поляна п") = true
  /\ @validate_city_field ucd (u "Хотимск г.п.") = Ok [Value (u "Хотимск")]
  /\ @validate_city_field ucd (u "Сенница") = Ok [Value (u "Сенница")].
Proof.
  split.
  - intros U city. unfold validate_city_field. cbv zeta. eauto.
  - repeat split; vm_compute; reflexivity.
Qed.

(** C7.  The rules are tried in order and the first one whose pattern is
    found wins: its label is returned with the trimmed remainder.  But the
    remainder is the name without the text of the match wherever that text
    occurs: in "ул. Мира ул. Ленина" the street rule (the seventh) matches
    the span [0, 3) and both "ул." are removed. *)
Theorem matched_text_removed_everywhere :
  (forall (U : Unicode) (pre post : list (re * pystr)) (rx : re)
          (ty name : pystr) (m : re_match_obj),
      @TYPE_MAP U = pre ++ (rx, ty) :: post ->
      Forall (no_match name) pre ->
      re_search rx name = Some m ->
      @_extract_type_and_name U name
      = (Some ty,
         str_strip (str_replace (slice name (m_start m) (m_end m)) [] name)))
  /\ option_map span
       (re_search (fst (nth 6 (@TYPE_MAP ucd) (Eps, [])))
          (u "ул. Мира ул. Ленина"))
     = Some (0, 3)
  /\ @_extract_type_and_name ucd (u "ул. Мира ул. Ленина")
     = (Some (u "улица"), u "Мира  Ленина")
  /\ @str_strip ucd (skipn 3 (u "ул. Мира ул. Ленина"))
     = u "Мира ул. Ленина".
Proof.
  split.
  - intros U pre post rx ty name m Hmap Hpre Hm.
    unfold _extract_type_and_name. rewrite Hmap.
    now apply extract_first_match.
  - repeat split; vm_compute; reflexivity.
Qed.

Lemma matched_text_removed_everywhere_witness :
  @_extract_type_and_name ucd (u "ЛЕНИНА УЛ.")
  = (Some (u "улица"),
     @str_strip ucd (str_replace (slice (u "ЛЕНИНА УЛ.") 7 10) []
                       (u "ЛЕНИНА УЛ."))).
Proof.
  apply (proj1 matched_text_removed_everywhere ucd
           (firstn 6 (@TYPE_MAP ucd)) (skipn 7 (@TYPE_MAP ucd))
           (fst (nth 6 (@TYPE_MAP ucd) (Eps, []))) (u "улица")
           (u "ЛЕНИНА УЛ.") (MatchObj 7 10 [])).
  - reflexivity.
  - repeat (constructor; [vm_compute; reflexivity|]). constructor.
  - vm_compute. reflexivity.
Defined.

(** C8.  Constructing a Toponym never raises and leaves a type that is not
    [None]; when the string has no manual override and no rule of
    [TYPE_MAP] matches it, the type is the configured default type. *)
Theorem Toponym_type_never_null (U : Unicode) (s default_type : pystr) :
  exists t ty,
    @Toponym_new U s default_type = Ok t
    /\ _type t = Some ty
    /\ _original_str t = s
    /\ (dict_contains MANUAL_MAP s = false ->
        Forall (no_match s) (@TYPE_MAP U) ->
        ty = default_type).
Proof.
  destruct (@tokenize_total U default_type s) as (ty & nm & E & Hdefault).
  exists (mkToponym s default_type (Some ty) nm), ty.
  unfold Toponym_new. rewrite E. cbn [obind fst snd _type _original_str].
  repeat split. intros Hmanual Hnone. apply Hdefault; [exact Hmanual|].
  unfold _extract_type_and_name.
  now rewrite (extract_no_match _ _ Hnone).
Qed.

Lemma Toponym_type_never_null_witness :
  exists t,
    @Toponym_new ucd (u "ленина") (u "улица") = Ok t
    /\ _type t = Some (u "улица").
Proof.
  destruct (Toponym_type_never_null ucd (u "ленина") (u "улица"))
    as (t & ty & E & Hty & _ & Hdefault).
  exists t. split; [exact E|]. rewrite Hty. f_equal.
  apply Hdefault; [vm_compute; reflexivity|].
  repeat (constructor; [vm_compute; reflexivity|]). constructor.
Defined.

(** C9 fails as stated: a field without a strategy makes the run raise
    [AttributeError], the error of the attribute lookup; the module has no
    [ConfigurationError]. *)
Lemma unknown_field_raises_attribute_error :
  @validate_connections ucd (ConnectionValidator_init (PyNames [u "bogus"]))
    [0] [create_connection (u "test") (u "1") []]
  = (Raise "AttributeError", [create_connection (u "test") (u "1") []])
  /\ String.eqb "AttributeError" "ConfigurationError" = false.
Proof.
  split; vm_compute; reflexivity.
Qed.

(** C9, amended.  If the configured field list contains a field name for
    which no validation strategy is defined, exhausting the sequence
    returned by [validate_connections] raises [AttributeError]; the lookup
    fails before any record is read or built, whatever the position of the
    field in the list. *)
Theorem unknown_field_fails_before_any_record (U : Unicode)
  (v : ConnectionValidator) (connections : list ref) (h : heap) (f : pystr) :
  In f (fields v) ->
  (forall s, @getattr_validator U (strategy_name f) <> Ok s) ->
  @validate_connections U v connections h = (Raise "AttributeError", h).
Proof.
  intros Hin Hnone.
  destruct (@getattr_validator U (strategy_name f)) as [s|e] eqn:E.
  - now destruct (Hnone s).
  - rewrite (getattr_validator_raise _ _ E) in E.
    now apply validate_connections_missing with (f := f).
Qed.

Lemma unknown_field_fails_before_any_record_witness :
  @validate_connections ucd
    (ConnectionValidator_init (PyNames [u "house"; u "bogus"; u "city"]))
    [0] [create_connection (u "test") (u "20,30,40") []]
  = (Raise "AttributeError", [create_connection (u "test") (u "20,30,40") []]).
Proof.
  apply (unknown_field_fails_before_any_record ucd
           (ConnectionValidator_init (PyNames [u "house"; u "bogus"; u "city"]))
           [0] [create_connection (u "test") (u "20,30,40") []] (u "bogus")).
  - right. left. reflexivity.
  - intros s H. vm_compute in H. discriminate H.
Defined.

(** C10 fails as stated: a value without any comma also has only empty
    segments once its spaces are removed, yet it is passed through.  The
    values " " and "" are not decimal and are returned unchanged. *)
Lemma blank_house_passes_through :
  @str_isdecimal ucd (u " ") = false
  /\ forallb is_empty (map without_spaces (str_split 44 (u " "))) = true
  /\ @validate_house_field ucd (u " ") = Ok [Value (u " ")]
  /\ @str_isdecimal ucd [] = false
  /\ forallb is_empty (map without_spaces (str_split 44 [])) = true
  /\ @validate_house_field ucd [] = Ok [Value []].
Proof.
  repeat split; vm_compute; reflexivity.
Qed.

(** C10, amended.  For every house value that contains at least one comma
    and otherwise only space characters (U+0020), for example ",", the
    strategy returns the empty list, so that [validate_connections] yields
    no record for that input record: it is dropped without an error, and
    nothing is built for it. *)
Theorem comma_only_house_is_dropped :
  (forall (U : Unicode) (house : pystr),
      In 44%N house -> commas_and_spaces house ->
      @validate_house_field U house = Ok [])
  /\ (forall (U : Unicode) (h : heap) (c : ref) (r : Connection),
         nth_error h c = Some r ->
         In 44%N (house r) -> commas_and_spaces (house r) ->
         @validate_connections U (ConnectionValidator_init PyNone) [c] h
         = (Ok [], h))
  /\ @validate_house_field ucd (u ",") = Ok [].
Proof.
  split; [|split].
  - intros U house Hin Hcs. now apply house_only_commas.
  - intros U h c r Hc Hin Hcs.
    unfold validate_connections, bind at 1, lift.
    change (fields (ConnectionValidator_init PyNone)) with DEFAULT_FIELDS.
    rewrite resolve_default. cbn [for_each]. unfold bind at 1.
    rewrite (pull_nothing (u "house") House validate_house_field _ c r h
               conn_attr_house Hc (house_only_commas (house r) Hin Hcs)).
    reflexivity.
  - vm_compute. reflexivity.
Qed.

Lemma comma_only_house_is_dropped_witness :
  @validate_connections ucd (ConnectionValidator_init PyNone) [0]
    [create_connection (u "test") (u ", ,") []]
  = (Ok [], [create_connection (u "test") (u ", ,") []]).
Proof.
  apply (proj1 (proj2 comma_only_house_is_dropped) ucd
           [create_connection (u "test") (u ", ,") []] 0
           (create_connection (u "test") (u ", ,") [])).
  - reflexivity.
  - vm_compute. left. reflexivity.
  - vm_compute.
    constructor; [left; reflexivity|].
    constructor; [right; reflexivity|].
    constructor; [left; reflexivity|].
    constructor.
Defined.


(** * Further properties *)

(** ** The names of the fields *)

Section FieldNames.

Context {U : Unicode}.

Lemma str_eqb_eq (a b : pystr) : str_eqb a b = true <-> a = b.
Proof.
  revert b; induction a as [|x a IH]; intros [|y b]; cbn [str_eqb];
    try (split; [intros Hd; discriminate Hd|intros Hd; discriminate Hd]).
  - split; reflexivity.
  - rewrite andb_true_iff, cp_eqb_eq, IH. split.
    + intros [-> ->]; reflexivity.
    + intros [= -> ->]; auto.
Qed.

Lemma strategy_name_inj (f g : pystr) :
  strategy_name f = strategy_name g -> f = g.
Proof.
  unfold strategy_name. intros H.
  apply app_inv_head in H. now apply app_inv_tail in H.
Qed.

Lemma getattr_validator_name (f : pystr) (s : strategy) :
  getattr_validator (strategy_name f) = Ok s ->
  In (f, s)
    [(u "city", validate_city_field); (u "house", validate_house_field);
     (u "status", validate_status_field); (u "region", validate_region_field);
     (u "provider", validate_provider_field);
     (u "street", validate_street_field)].
Proof.
  unfold getattr_validator.
  destruct (str_eqb (strategy_name f) (u "validate_city_field")) eqn:E1.
  { intros [= <-]. apply str_eqb_eq in E1.
    apply (strategy_name_inj f (u "city")) in E1. subst f. cbn [In]. auto. }
  destruct (str_eqb (strategy_name f) (u "validate_house_field")) eqn:E2.
  { intros [= <-]. apply str_eqb_eq in E2.
    apply (strategy_name_inj f (u "house")) in E2. subst f. cbn [In]. auto. }
  destruct (str_eqb (strategy_name f) (u "validate_status_field")) eqn:E3.
  { intros [= <-]. apply str_eqb_eq in E3.
    apply (strategy_name_inj f (u "status")) in E3. subst f.
    cbn [In]. auto. }
  destruct (str_eqb (strategy_name f) (u "validate_region_field")) eqn:E4.
  { intros [= <-]. apply str_eqb_eq in E4.
    apply (strategy_name_inj f (u "region")) in E4. subst f.
    cbn [In]. auto 6. }
  destruct (str_eqb (strategy_name f) (u "validate_provider_field")) eqn:E5.
  { intros [= <-]. apply str_eqb_eq in E5.
    apply (strategy_name_inj f (u "provider")) in E5. subst f.
    cbn [In]. auto 7. }
  destruct (str_eqb (strategy_name f) (u "validate_street_field")) eqn:E6.
  { intros [= <-]. apply str_eqb_eq in E6.
    apply (strategy_name_inj f (u "street")) in E6. subst f.
    cbn [In]. auto 8. }
  intros Hd; discriminate Hd.
Qed.

End FieldNames.

(** ** The strategies never raise *)

Section Totality.

Context {U : Unicode}.

Lemma validate_house_field_total (house : pystr) :
  exists fs, validate_house_field house = Ok fs.
Proof.
  unfold validate_house_field.
  destruct (str_isdecimal house); [eauto|].
  destruct (re_match RE_BUILDING_NUMBER house); [eauto|].
  destruct (is_for_artificial_person house); [eauto|].
  destruct (str_in (u ",") house); eauto.
Qed.

Lemma Toponym_new_total (s default_type : pystr) :
  exists t, Toponym_new s default_type = Ok t.
Proof.
  destruct (tokenize_total default_type s) as (ty & nm & E & _).
  unfold Toponym_new. rewrite E. cbn [obind]. eauto.
Qed.

Lemma validate_street_field_total (street : pystr) :
  exists fs, validate_street_field street = Ok fs.
Proof.
  unfold validate_street_field.
  destruct (Toponym_new_total street (u "улица")) as (t & E).
  rewrite E. cbn [obind]. eauto.
Qed.

(** What is known of a field that has a strategy. *)
Lemma strategy_row (f : pystr) (s : strategy) :
  getattr_validator (strategy_name f) = Ok s ->
  exists attr,
    conn_attr f = Some attr /\ strategy_ok s
    /\ forall v, exists fs, s v = Ok fs.
Proof.
  intros H. pose proof (getattr_validator_ok _ _ H) as Hok.
  apply getattr_validator_name in H. cbn [In] in H.
  destruct H as [H|[H|[H|[H|[H|[H|[]]]]]]];
    injection H as <- <-.
  - exists City. repeat split; [exact Hok|].
    intros v. unfold validate_city_field. cbv zeta. eauto.
  - exists House. repeat split; [exact Hok|].
    apply validate_house_field_total.
  - exists Status. repeat split; [exact Hok|].
    intros v. unfold validate_status_field. eauto.
  - exists Region. repeat split; [exact Hok|].
    intros v. unfold validate_region_field. eauto.
  - exists Provider. repeat split; [exact Hok|].
    intros v. unfold validate_provider_field. eauto.
  - exists Street. repeat split; [exact Hok|].
    apply validate_street_field_total.
Qed.

Lemma getattr_validator_default (f : pystr) :
  In f DEFAULT_FIELDS -> exists s, getattr_validator (strategy_name f) = Ok s.
Proof.
  unfold DEFAULT_FIELDS. cbn [In].
  intros [<-|[<-|[<-|[<-|[<-|[<-|[]]]]]]]; eexists; reflexivity.
Qed.

Lemma resolve_total (fs : list pystr) :
  Forall (fun f => In f DEFAULT_FIELDS) fs ->
  exists stages, resolve fs = Ok stages.
Proof.
  induction 1 as [|f fs Hf _ (stages & E)]; cbn [resolve]; [eauto|].
  destruct (getattr_validator_default f Hf) as (s & Es).
  rewrite E, Es. cbn [obind]. eauto.
Qed.

End Totality.

(** ** The generator chain and the composition of the passes *)

Section Composition.

Context {U : Unicode}.

Lemma stored_keep (h ext : heap) (c : ref) (r : Connection) :
  stored h c r -> stored (h ++ ext) c r.
Proof. apply nth_error_keep. Qed.

Lemma stored_all_keep (h ext : heap) (out : list ref)
  (rs : list Connection) :
  Forall2 (stored h) out rs -> Forall2 (stored (h ++ ext)) out rs.
Proof.
  induction 1; constructor; auto using stored_keep.
Qed.

Lemma Forall2_cons_r {A B} (P : A -> B -> Prop) (out : list A) (x : B)
  (l : list B) :
  Forall2 P out (x :: l) ->
  exists o out', out = o :: out' /\ P o x /\ Forall2 P out' l.
Proof.
  intros H. inversion H as [|o ? out' ? Ho H']; subst. eauto.
Qed.

Lemma Forall2_nil_r {A B} (P : A -> B -> Prop) (out : list A) :
  Forall2 P out [] -> out = [].
Proof.
  intros H. now inversion H.
Qed.

Lemma flat_map_single {A} (l : list A) : flat_map (fun x => [x]) l = l.
Proof.
  induction l as [|x l IH]; cbn; [reflexivity|]. now rewrite IH.
Qed.

Lemma flat_map_nested {A B C} (f : A -> list B) (g : B -> list C)
  (l : list A) :
  flat_map g (flat_map f l) = flat_map (fun x => flat_map g (f x)) l.
Proof.
  induction l as [|x l IH]; cbn; [reflexivity|].
  now rewrite flat_map_app, IH.
Qed.

(** Record by record or pass by pass, the passes give the same records in
    the same order. *)
Lemma run_values_depth (fs : list pystr) (rs : list Connection) :
  run_values fs rs = flat_map (depth_values fs) rs.
Proof.
  revert rs. induction fs as [|f fs IH]; intros rs; cbn [run_values].
  - symmetry. apply flat_map_single.
  - rewrite IH. apply flat_map_nested.
Qed.

Lemma resolve_cons (f : pystr) (fs : list pystr)
  (stages : list (pystr * strategy)) :
  resolve (f :: fs) = Ok stages ->
  exists s stages',
    stages = (f, s) :: stages'
    /\ getattr_validator (strategy_name f) = Ok s
    /\ resolve fs = Ok stages'.
Proof.
  cbn [resolve].
  destruct (resolve fs) as [stages'|e]; cbn [obind];
    [|intros Hd; discriminate Hd].
  destruct (getattr_validator (strategy_name f)) as [s|e] eqn:E;
    [|intros Hd; discriminate Hd].
  intros [= <-]. eauto.
Qed.

(** The records that the chain yields for one record are the records of
    the passes, in their order; the run does not raise. *)
Lemma pull_values (fs : list pystr) :
  forall stages,
    resolve fs = Ok stages ->
    forall c r h,
      stored h c r ->
      exists out ext,
        pull stages c h = (Ok out, h ++ ext)
        /\ Forall2 (stored (h ++ ext)) out (depth_values fs r).
Proof.
  induction fs as [|f fs IH]; intros stages Hres c r h Hc.
  - injection Hres as <-. exists [c], []. cbn [pull depth_values].
    rewrite app_nil_r. split; [reflexivity|]. constructor; [exact Hc|constructor].
  - apply resolve_cons in Hres.
    destruct Hres as (s & stages' & -> & Hs & Hres).
    destruct (strategy_row f s Hs) as (attr & Hattr & Hok & Htotal).
    destruct (Htotal (get_field attr r)) as (cands & Hcands).
    cbn [pull depth_values]. rewrite validate_record_eq, Hattr.
    unfold stored in Hc. rewrite Hc, Hcands.
    unfold field_values. rewrite Hs, Hattr, Hcands.
    specialize (Hok _ _ Hcands). clear Hcands Htotal Hs.
    revert h Hc. induction Hok as [|cand cands Hcand _ IHc]; intros h Hc.
    + exists [], []. cbn. rewrite app_nil_r. split; [reflexivity|constructor].
    + destruct (derive_content c attr cand h r Hcand Hc)
        as (conn & e1 & E1 & _ & N1).
      destruct (IH stages' Hres conn (derived r attr cand) (h ++ e1) N1)
        as (out1 & e2 & E2 & F2).
      destruct (IHc ((h ++ e1) ++ e2)
                  (nth_error_keep (h ++ e1) e2 c r
                     (nth_error_keep h e1 c r Hc)))
        as (out2 & e3 & E3 & F3).
      exists (out1 ++ out2), (e1 ++ e2 ++ e3).
      cbn [for_each map flat_map]. unfold bind at 1 2. rewrite E1, E2.
      unfold bind at 1. rewrite E3. unfold ret.
      rewrite !app_assoc. split; [reflexivity|].
      apply Forall2_app; [|exact F3].
      now apply stored_all_keep.
Qed.

Lemma for_each_pull_values (fs : list pystr)
  (stages : list (pystr * strategy)) :
  resolve fs = Ok stages ->
  forall connections rs h,
    Forall2 (stored h) connections rs ->
    exists out ext,
      for_each connections (pull stages) h = (Ok out, h ++ ext)
      /\ Forall2 (stored (h ++ ext)) out (flat_map (depth_values fs) rs).
Proof.
  intros Hres connections rs h Hin. revert h Hin.
  assert (Hgen : forall connections rs,
    Forall2 (fun (_ : ref) (_ : Connection) => True) connections rs ->
    forall h, Forall2 (stored h) connections rs ->
    exists out ext,
      for_each connections (pull stages) h = (Ok out, h ++ ext)
      /\ Forall2 (stored (h ++ ext)) out (flat_map (depth_values fs) rs)).
  { clear connections rs.
    induction 1 as [|c r connections rs _ _ IHl]; intros h Hin.
    - exists [], []. cbn. rewrite app_nil_r. split; [reflexivity|constructor].
    - inversion Hin as [|? ? ? ? Hc Hrest]; subst.
      destruct (pull_values fs stages Hres c r h Hc) as (out1 & e1 & E1 & F1).
      destruct (IHl (h ++ e1) (stored_all_keep h e1 _ _ Hrest))
        as (out2 & e2 & E2 & F2).
      exists (out1 ++ out2), (e1 ++ e2).
      cbn [for_each flat_map]. unfold bind at 1. rewrite E1.
      unfold bind at 1. rewrite E2. unfold ret.
      rewrite app_assoc. split; [reflexivity|].
      apply Forall2_app; [|exact F2]. now apply stored_all_keep. }
  intros h Hin. apply Hgen; [|exact Hin].
  clear -Hin. induction Hin; constructor; auto.
Qed.

End Composition.

(** ** The default field list, field by field *)

Section DefaultFields.

Context {U : Unicode}.

Lemma getattr_city :
  getattr_validator (strategy_name (u "city")) = Ok validate_city_field.
Proof. reflexivity. Qed.

Lemma conn_attr_city : conn_attr (u "city") = Some City.
Proof. reflexivity. Qed.

Lemma getattr_street :
  getattr_validator (strategy_name (u "street")) = Ok validate_street_field.
Proof. reflexivity. Qed.

Lemma conn_attr_street : conn_attr (u "street") = Some Street.
Proof. reflexivity. Qed.

Lemma getattr_provider :
  getattr_validator (strategy_name (u "provider")) = Ok validate_provider_field.
Proof. reflexivity. Qed.

Lemma conn_attr_provider : conn_attr (u "provider") = Some Provider.
Proof. reflexivity. Qed.

Lemma getattr_region :
  getattr_validator (strategy_name (u "region")) = Ok validate_region_field.
Proof. reflexivity. Qed.

Lemma conn_attr_region : conn_attr (u "region") = Some Region.
Proof. reflexivity. Qed.

Lemma getattr_status :
  getattr_validator (strategy_name (u "status")) = Ok validate_status_field.
Proof. reflexivity. Qed.

Lemma conn_attr_status : conn_attr (u "status") = Some Status.
Proof. reflexivity. Qed.

Lemma field_values_house (r : Connection) (fs : list candidate) :
  validate_house_field (house r) = Ok fs ->
  field_values (u "house") r = map (derived r House) fs.
Proof.
  intros H. unfold field_values.
  rewrite getattr_house, conn_attr_house.
  cbn [get_field]. now rewrite H.
Qed.

Lemma field_values_city (r : Connection) (v : pystr) :
  validate_city_field (city r) = Ok [Value v] ->
  field_values (u "city") r = [set_field City v r].
Proof.
  intros H. unfold field_values.
  rewrite getattr_city, conn_attr_city.
  cbn [get_field]. now rewrite H.
Qed.

Lemma field_values_street (r : Connection) (v : pystr) :
  validate_street_field (street r) = Ok [Value v] ->
  field_values (u "street") r = [set_field Street v r].
Proof.
  intros H. unfold field_values.
  rewrite getattr_street, conn_attr_street.
  cbn [get_field]. now rewrite H.
Qed.

Lemma field_values_provider (r : Connection) :
  field_values (u "provider") r = [r].
Proof.
  unfold field_values.
  rewrite getattr_provider, conn_attr_provider.
  now destruct r.
Qed.

Lemma field_values_region (r : Connection) :
  field_values (u "region") r = [r].
Proof.
  unfold field_values.
  rewrite getattr_region, conn_attr_region.
  now destruct r.
Qed.

Lemma field_values_status (r : Connection) :
  field_values (u "status") r = [r].
Proof.
  unfold field_values.
  rewrite getattr_status, conn_attr_status.
  now destruct r.
Qed.

Lemma validate_city_field_single (city : pystr) :
  exists v, validate_city_field city = Ok [Value v].
Proof.
  unfold validate_city_field. cbv zeta. eauto.
Qed.

Lemma validate_street_field_single (street : pystr) :
  exists v, validate_street_field street = Ok [Value v].
Proof.
  unfold validate_street_field.
  destruct (Toponym_new_total street (u "улица")) as (t & E).
  rewrite E. cbn [obind]. eauto.
Qed.

Lemma derived_house_city (r : Connection) (f : candidate) :
  city (derived r House f) = city r.
Proof. now destruct f. Qed.

Lemma derived_house_street (r : Connection) (f : candidate) :
  street (derived r House f) = street r.
Proof. now destruct f. Qed.

Lemma depth_values_cons (f : pystr) (fs : list pystr) (r : Connection) :
  depth_values (f :: fs) r = flat_map (depth_values fs) (field_values f r).
Proof. reflexivity. Qed.

Lemma flat_map_one {A B} (g : A -> list B) (x : A) :
  flat_map g [x] = g x.
Proof. cbn. apply app_nil_r. Qed.

(** After the house pass, a record goes through the five other passes as
    one record: only its city and its street change. *)
Lemma tail_values (r : Connection) (cv sv : pystr) :
  validate_city_field (city r) = Ok [Value cv] ->
  validate_street_field (street r) = Ok [Value sv] ->
  depth_values [u "provider"; u "region"; u "city"; u "street"; u "status"] r
  = [set_field Street sv (set_field City cv r)].
Proof.
  intros Hc Hs.
  rewrite depth_values_cons, field_values_provider, flat_map_one.
  rewrite depth_values_cons, field_values_region, flat_map_one.
  rewrite depth_values_cons, (field_values_city r cv Hc), flat_map_one.
  rewrite depth_values_cons.
  rewrite (field_values_street (set_field City cv r) sv)
    by (destruct r; exact Hs).
  rewrite flat_map_one.
  rewrite depth_values_cons, field_values_status, flat_map_one.
  reflexivity.
Qed.

Lemma default_values (r : Connection) (fs : list candidate)
  (cv sv : pystr) :
  validate_house_field (house r) = Ok fs ->
  validate_city_field (city r) = Ok [Value cv] ->
  validate_street_field (street r) = Ok [Value sv] ->
  depth_values DEFAULT_FIELDS r
  = map (fun f => set_field Street sv (set_field City cv (derived r House f)))
      fs.
Proof.
  intros Hh Hc Hs. unfold DEFAULT_FIELDS.
  rewrite depth_values_cons, (field_values_house r fs Hh).
  clear Hh. induction fs as [|f fs IH]; [reflexivity|].
  cbn [flat_map map]. rewrite IH. clear IH.
  rewrite (tail_values (derived r House f) cv sv).
  - reflexivity.
  - now rewrite derived_house_city.
  - now rewrite derived_house_street.
Qed.

End DefaultFields.

(** ** Theorems on the pipeline *)

(** X1.  The strategy lookup succeeds for the six field names "house",
    "provider", "region", "city", "street" and "status" and for no other
    name; each of the six is also an attribute of a record, and a failed
    lookup is an [AttributeError]. *)
Theorem field_names_closed (U : Unicode) (f : pystr) :
  ((exists s, @getattr_validator U (strategy_name f) = Ok s)
   <-> In f DEFAULT_FIELDS)
  /\ (In f DEFAULT_FIELDS -> exists attr, conn_attr f = Some attr)
  /\ (~ In f DEFAULT_FIELDS ->
      @getattr_validator U (strategy_name f) = Raise "AttributeError").
Proof.
  assert (Hiff : (exists s, @getattr_validator U (strategy_name f) = Ok s)
                 <-> In f DEFAULT_FIELDS).
  { split.
    - intros (s & H). apply getattr_validator_name in H.
      unfold DEFAULT_FIELDS. cbn [In] in *.
      destruct H as [H|[H|[H|[H|[H|[H|[]]]]]]]; injection H as <- _; auto 8.
    - apply getattr_validator_default. }
  split; [exact Hiff|split].
  - intros Hin. apply Hiff in Hin. destruct Hin as (s & Hs).
    destruct (strategy_row f s Hs) as (attr & Hattr & _). eauto.
  - intros Hnot.
    destruct (@getattr_validator U (strategy_name f)) as [s|e] eqn:E.
    + exfalso. apply Hnot, Hiff. eauto.
    + now rewrite (getattr_validator_raise _ _ E).
Qed.

Lemma field_names_closed_witness :
  @getattr_validator ucd (strategy_name (u "houses")) = Raise "AttributeError".
Proof.
  apply (proj2 (proj2 (field_names_closed ucd (u "houses")))).
  vm_compute. intros H.
  repeat (destruct H as [H|H]; [discriminate H|]). exact H.
Defined.

(** X2.  When every configured field is one of the six names and the input
    references are live, exhausting [validate_connections] does not raise,
    only appends objects to the store, and yields, in this order, the
    records obtained by applying the field passes one after the other to
    the whole input sequence. *)
Theorem validate_connections_composes (U : Unicode) (v : ConnectionValidator)
  (connections : list ref) (rs : list Connection) (h : heap) :
  Forall (fun f => In f DEFAULT_FIELDS) (fields v) ->
  Forall2 (stored h) connections rs ->
  exists out ext,
    @validate_connections U v connections h = (Ok out, h ++ ext)
    /\ Forall2 (stored (h ++ ext)) out (@run_values U (fields v) rs).
Proof.
  intros Hfields Hin.
  destruct (resolve_total (fields v) Hfields) as (stages & Hres).
  destruct (for_each_pull_values (fields v) stages Hres connections rs h Hin)
    as (out & ext & E & F).
  exists out, ext. unfold validate_connections, bind, lift.
  rewrite Hres, E, run_values_depth. auto.
Qed.

Lemma validate_connections_composes_witness :
  exists out ext,
    @validate_connections ucd
      (ConnectionValidator_init (PyNames [u "house"; u "city"])) [0]
      [create_connection (u "test") (u "20,30,40") []]
    = (Ok out, [create_connection (u "test") (u "20,30,40") []] ++ ext)
    /\ Forall2
         (stored ([create_connection (u "test") (u "20,30,40") []] ++ ext))
         out
         (@run_values ucd [u "house"; u "city"]
            [create_connection (u "test") (u "20,30,40") []]).
Proof.
  apply (validate_connections_composes ucd
           (ConnectionValidator_init (PyNames [u "house"; u "city"])) [0]
           [create_connection (u "test") (u "20,30,40") []]
           [create_connection (u "test") (u "20,30,40") []]).
  - constructor; [vm_compute; auto 8|].
    constructor; [vm_compute; auto 8|]. constructor.
  - constructor; [reflexivity|constructor].
Defined.

(** X3.  The city pass is one to one: for live input references,
    [_validate_city] yields exactly one new record per input record, in the
    input order, and that record is the input record with its city replaced
    by the value of the city strategy. *)
Theorem validate_city_one_to_one (U : Unicode) (connections : list ref)
  (rs : list Connection) (h : heap) :
  Forall2 (stored h) connections rs ->
  exists out ext,
    @_validate_city U connections h = (Ok out, h ++ ext)
    /\ Forall (fun o => length h <= o) out
    /\ Forall2
         (fun o r =>
            exists v,
              @validate_city_field U (city r) = Ok [Value v]
              /\ stored (h ++ ext) o (set_field City v r))
         out rs.
Proof.
  intros Hin.
  assert (Hres : @resolve U [u "city"] = Ok [(u "city", validate_city_field)])
    by reflexivity.
  destruct (for_each_pull_values [u "city"] _ Hres connections rs h Hin)
    as (out & ext & E & F).
  exists out, ext. unfold _validate_city, __validate_field, bind, lift.
  rewrite getattr_city. cbv beta iota.
  split; [exact E|]. split.
  - assert (Hf : appends_fresh
                   (for_each connections
                      (pull [(u "city", @validate_city_field U)]))
                   (length h) h).
    { apply for_each_fresh. intros c h1 _.
      apply pull_fresh; [|lia|intros Hd; discriminate Hd].
      constructor; [exact validate_city_field_ok|constructor]. }
    destruct Hf as (ext' & S & B).
    pose proof (f_equal fst E) as E1. pose proof (f_equal snd E) as E2.
    cbn [fst snd] in E1, E2.
    destruct (B out E1) as [_ Hb].
    eapply Forall_impl; [|exact Hb]. cbn. intros; lia.
  - clear E Hin. revert out F.
    induction rs as [|r rs IH]; intros out F.
    + cbn [flat_map] in F. apply Forall2_nil_r in F. subst out. constructor.
    + destruct (validate_city_field_single (city r)) as (v & Hv).
      cbn [flat_map] in F. rewrite depth_values_cons in F.
      rewrite (field_values_city r v Hv), flat_map_one in F.
      cbn [depth_values app] in F.
      apply Forall2_cons_r in F. destruct F as (o & out' & -> & Ho & F').
      constructor; [eauto|]. now apply IH.
Qed.

Lemma validate_city_one_to_one_witness :
  exists out ext,
    @_validate_city ucd [0; 0]
      [create_connection (u "test") (u "1") []]
    = (Ok out, [create_connection (u "test") (u "1") []] ++ ext)
    /\ length out = 2.
Proof.
  destruct (validate_city_one_to_one ucd [0; 0]
              [create_connection (u "test") (u "1") [];
               create_connection (u "test") (u "1") []]
              [create_connection (u "test") (u "1") []])
    as (out & ext & E & _ & F).
  - constructor; [reflexivity|]. constructor; [reflexivity|constructor].
  - exists out, ext. split; [exact E|].
    apply Forall2_length in F. exact F.
Defined.

Section DefaultPipeline.

Context {U : Unicode}.

Lemma Forall2_map_r {A B C} (P : A -> C -> Prop) (g : B -> C)
  (out : list A) (l : list B) :
  Forall2 P out (map g l) -> Forall2 (fun o x => P o (g x)) out l.
Proof.
  revert out. induction l as [|x l IH]; intros out H.
  - apply Forall2_nil_r in H. subst. constructor.
  - cbn [map] in H. apply Forall2_cons_r in H.
    destruct H as (o & out' & -> & Ho & H). constructor; auto.
Qed.

Lemma default_pipeline_values (c : ref) (r : Connection) (h : heap)
  (fs : list candidate) (cv sv : pystr) :
  stored h c r ->
  validate_house_field (house r) = Ok fs ->
  validate_city_field (city r) = Ok [Value cv] ->
  validate_street_field (street r) = Ok [Value sv] ->
  exists out ext,
    validate_connections (ConnectionValidator_init PyNone) [c] h
    = (Ok out, h ++ ext)
    /\ Forall2
         (fun o f =>
            stored (h ++ ext) o
              (set_field Street sv (set_field City cv (derived r House f))))
         out fs.
Proof.
  intros Hc Hh Hcity Hstreet.
  destruct (for_each_pull_values DEFAULT_FIELDS _ resolve_default [c] [r] h
              (Forall2_cons _ _ Hc (Forall2_nil _)))
    as (out & ext & E & F).
  exists out, ext. split.
  - unfold validate_connections, bind, lift.
    change (fields (ConnectionValidator_init PyNone)) with DEFAULT_FIELDS.
    rewrite resolve_default. cbv beta iota. exact E.
  - rewrite flat_map_one in F.
    rewrite (default_values r fs cv sv Hh Hcity Hstreet) in F.
    now apply Forall2_map_r in F.
Qed.

Lemma house_no_comma_single (house : pystr) :
  str_in (u ",") house = false ->
  exists f, validate_house_field house = Ok [f].
Proof.
  intros H. unfold validate_house_field.
  destruct (str_isdecimal house); [eauto|].
  destruct (re_match RE_BUILDING_NUMBER house); [eauto|].
  destruct (is_for_artificial_person house); [eauto|].
  rewrite H. eauto.
Qed.

End DefaultPipeline.



(** X5.  A record is dropped or multiplied only through a comma in its
    house value: with the default field list, a live record whose house
    value contains no comma yields exactly one record, held by a new object
    (one that was not in the store before the run), with the provider and
    the region of the input record. *)
Theorem no_comma_one_record (U : Unicode) (c : ref) (r : Connection)
  (h : heap) :
  stored h c r ->
  str_in (u ",") (house r) = false ->
  exists o r' ext,
    @validate_connections U (ConnectionValidator_init PyNone) [c] h
    = (Ok [o], h ++ ext)
    /\ length h <= o
    /\ nth_error h o = None
    /\ stored (h ++ ext) o r'
    /\ provider r' = provider r /\ region r' = region r.
Proof.
  intros Hc Hcomma.
  destruct (@house_no_comma_single U (house r) Hcomma) as (f & Hf).
  destruct (@validate_city_field_single U (city r)) as (cv & Hcity).
  destruct (@validate_street_field_single U (street r)) as (sv & Hstreet).
  destruct (default_pipeline_values c r h [f] cv sv Hc Hf Hcity Hstreet)
    as (out & ext & E & F).
  apply Forall2_cons_r in F. destruct F as (o & out' & -> & Ho & F).
  apply Forall2_nil_r in F. subst out'.
  assert (Hfresh : length h <= o).
  { destruct (@validate_connections_fresh U PyNone [c] h) as (ext' & _ & B).
    pose proof (f_equal fst E) as E1. cbn [fst] in E1.
    destruct (B [o] E1) as [_ Hb]. apply Forall_inv in Hb. lia. }
  exists o, (set_field Street sv (set_field City cv (derived r House f))), ext.
  split; [exact E|]. split; [exact Hfresh|].
  split; [now apply nth_error_None|].
  split; [exact Ho|]. split; now destruct f.
Qed.

Lemma no_comma_one_record_witness :
  exists o ext,
    @validate_connections ucd (ConnectionValidator_init PyNone) [0]
      [create_connection (u "test") (u "29/1") []]
    = (Ok [o], [create_connection (u "test") (u "29/1") []] ++ ext)
    /\ 1 <= o.
Proof.
  destruct (no_comma_one_record ucd 0
              (create_connection (u "test") (u "29/1") [])
              [create_connection (u "test") (u "29/1") []])
    as (o & r' & ext & E & Hfresh & _).
  - reflexivity.
  - vm_compute. reflexivity.
  - exists o, ext. split; [exact E|exact Hfresh].
Defined.

(** ** The callback, trimming and the pass-through fields *)

Section CallbackFrame.

Lemma heap_store_length (h : heap) (c : ref) (r : Connection) :
  length (heap_store h c r) = length h.
Proof.
  revert c. induction h as [|x h IH]; intros [|c]; cbn; auto.
Qed.

Lemma heap_store_same (h : heap) (c : ref) (r r0 : Connection) :
  nth_error h c = Some r0 -> nth_error (heap_store h c r) c = Some r.
Proof.
  revert c. induction h as [|x h IH]; intros [|c] H; cbn in *;
    try discriminate H; auto.
Qed.

Lemma heap_store_other (h : heap) (c c' : ref) (r : Connection) :
  c' <> c -> nth_error (heap_store h c r) c' = nth_error h c'.
Proof.
  revert c c'. induction h as [|x h IH]; intros [|c] [|c'] H; cbn;
    try reflexivity; try (now destruct H).
  apply IH. intros ->. now apply H.
Qed.

End CallbackFrame.

Section Trimming.

Context {U : Unicode}.

Lemma lstrip_head (sp : cp -> bool) (s : pystr) :
  match lstrip sp s with [] => True | c :: _ => sp c = false end.
Proof.
  induction s as [|c s IH]; cbn [lstrip]; [exact I|].
  destruct (sp c) eqn:E; [exact IH|exact E].
Qed.

Lemma lstrip_app_stop (sp : cp -> bool) (t : pystr) (c : cp) :
  sp c = false -> lstrip sp (t ++ [c]) = lstrip sp t ++ [c].
Proof.
  intros H. induction t as [|x t IH]; cbn [lstrip app].
  - now rewrite H.
  - destruct (sp x); [exact IH|reflexivity].
Qed.

Lemma rstrip_cons_stop (sp : cp -> bool) (c : cp) (l : pystr) :
  sp c = false -> rstrip sp (c :: l) = c :: rstrip sp l.
Proof.
  intros H. unfold rstrip. cbn [rev].
  rewrite (lstrip_app_stop sp (rev l) c H), rev_app_distr. reflexivity.
Qed.

Lemma str_strip_trimmed (s : pystr) : trimmed (str_strip s).
Proof.
  unfold trimmed, str_strip. split.
  - pose proof (lstrip_head chr_isspace s) as H.
    destruct (lstrip chr_isspace s) as [|c l]; [exact I|].
    now rewrite (rstrip_cons_stop chr_isspace c l H).
  - unfold rstrip. rewrite rev_involutive. apply lstrip_head.
Qed.

Lemma trimmed_strip (s : pystr) : trimmed s -> str_strip s = s.
Proof.
  intros [Hh Hl]. unfold str_strip.
  assert (E : lstrip chr_isspace s = s).
  { destruct s as [|c s]; [reflexivity|]. cbn [lstrip]. now rewrite Hh. }
  rewrite E. unfold rstrip.
  destruct (rev s) as [|c t] eqn:Er.
  - apply (f_equal (@rev cp)) in Er. rewrite rev_involutive in Er.
    now subst s.
  - cbn [lstrip]. rewrite Hl, <- Er. apply rev_involutive.
Qed.

Lemma passthrough_values (fs : list pystr) (r : Connection) :
  Forall (fun f => In f [u "status"; u "region"; u "provider"]) fs ->
  depth_values fs r = [r].
Proof.
  induction 1 as [|f fs Hf _ IH]; [reflexivity|].
  rewrite depth_values_cons.
  cbn [In] in Hf.
  destruct Hf as [<-|[<-|[<-|[]]]].
  - now rewrite field_values_status, flat_map_one.
  - now rewrite field_values_region, flat_map_one.
  - now rewrite field_values_provider, flat_map_one.
Qed.

Lemma passthrough_default (fs : list pystr) :
  Forall (fun f => In f [u "status"; u "region"; u "provider"]) fs ->
  Forall (fun f => In f DEFAULT_FIELDS) fs.
Proof.
  apply Forall_impl. intros f Hf. cbn [In] in Hf. unfold DEFAULT_FIELDS.
  cbn [In]. destruct Hf as [<-|[<-|[<-|[]]]]; auto 8.
Qed.

End Trimming.

(** X6.  The status callback touches one object and one attribute: run on
    a live reference, it leaves the number of stored objects and every
    other object as they are, and replaces the object it is given by the
    same record with " (юридические лица)" appended to its status. *)
Theorem status_update_callback_frame (h : heap) (c : ref) (r : Connection) :
  stored h c r ->
  length (status_update_callback c h) = length h
  /\ stored (status_update_callback c h) c
       (set_field Status (status r ++ u " (юридические лица)") r)
  /\ forall c', c' <> c ->
                nth_error (status_update_callback c h) c' = nth_error h c'.
Proof.
  unfold stored, status_update_callback. intros H. rewrite H.
  split; [apply heap_store_length|split].
  - now apply heap_store_same with (r0 := r).
  - intros c' Hc. now apply heap_store_other.
Qed.

Lemma status_update_callback_frame_witness :
  stored
    (status_update_callback 1
       [create_connection (u "a") (u "1") (u "x");
        create_connection (u "b") (u "2") (u "y");
        create_connection (u "c") (u "3") (u "z")])
    1
    (set_field Status (u "y" ++ u " (юридические лица)")
       (create_connection (u "b") (u "2") (u "y"))).
Proof.
  apply (proj1 (proj2 (status_update_callback_frame
           [create_connection (u "a") (u "1") (u "x");
            create_connection (u "b") (u "2") (u "y");
            create_connection (u "c") (u "3") (u "z")] 1
           (create_connection (u "b") (u "2") (u "y")) eq_refl))).
Defined.

(** X7.  Values that the strategies trim carry no white space at either
    end, and trimming them again changes nothing: the value of the city
    strategy, the value of the artificial-person branch of the house
    strategy, and the name that [_extract_type_and_name] returns. *)
Theorem stripped_values_are_trimmed (U : Unicode) :
  (forall city : pystr,
      exists v, @validate_city_field U city = Ok [Value v]
                /\ trimmed v /\ str_strip v = v)
  /\ (forall house : pystr,
         str_isdecimal house = false ->
         re_match RE_BUILDING_NUMBER house = None ->
         is_for_artificial_person house = true ->
         exists v, @validate_house_field U house
                   = Ok [WithCallback v status_update_callback]
                   /\ trimmed v /\ str_strip v = v)
  /\ (forall name : pystr,
         trimmed (snd (@_extract_type_and_name U name))
         /\ str_strip (snd (_extract_type_and_name name))
            = snd (_extract_type_and_name name)).
Proof.
  split; [|split].
  - intros city. unfold validate_city_field. cbv zeta.
    eexists. split; [reflexivity|].
    split; [apply str_strip_trimmed|apply trimmed_strip, str_strip_trimmed].
  - intros house Hd Hm Ha. rewrite (house_artificial house Hd Hm Ha).
    eexists. split; [reflexivity|].
    split; [apply str_strip_trimmed|apply trimmed_strip, str_strip_trimmed].
  - intros name.
    assert (H : exists s, snd (@_extract_type_and_name U name) = str_strip s).
    { unfold _extract_type_and_name.
      induction (@TYPE_MAP U) as [|[rx ty] rules IH]; cbn [extract_with].
      - eexists. reflexivity.
      - destruct (re_search rx name); [eexists; reflexivity|exact IH]. }
    destruct H as (s & ->).
    split; [apply str_strip_trimmed|apply trimmed_strip, str_strip_trimmed].
Qed.

Lemma stripped_values_are_trimmed_witness :
  exists v, @validate_house_field ucd (u " 2 юр. лица ")
            = Ok [WithCallback v status_update_callback]
            /\ @trimmed ucd v.
Proof.
  destruct (proj1 (proj2 (stripped_values_are_trimmed ucd))
              (u " 2 юр. лица ")) as (v & E & T & _).
  - vm_compute. reflexivity.
  - vm_compute. reflexivity.
  - vm_compute. reflexivity.
  - exists v. split; [exact E|exact T].
Defined.

(** X8.  The status, region and provider strategies return their argument:
    a validator configured with these fields only yields, for live input
    references, one new object per input record, in the input order, whose
    record equals the input record. *)
Theorem passthrough_fields_copy (U : Unicode) (v : ConnectionValidator)
  (connections : list ref) (rs : list Connection) (h : heap) :
  Forall (fun f => In f [u "status"; u "region"; u "provider"]) (fields v) ->
  Forall2 (stored h) connections rs ->
  exists out ext,
    @validate_connections U v connections h = (Ok out, h ++ ext)
    /\ Forall2 (stored (h ++ ext)) out rs
    /\ (fields v <> [] -> Forall (fun o => length h <= o) out).
Proof.
  intros Hfields Hin.
  destruct (resolve_total (fields v) (passthrough_default _ Hfields))
    as (stages & Hres).
  destruct (for_each_pull_values (fields v) stages Hres connections rs h Hin)
    as (out & ext & E & F).
  exists out, ext. unfold validate_connections, bind, lift.
  rewrite Hres. cbv beta iota. split; [exact E|]. split.
  - replace (flat_map (depth_values (fields v)) rs) with rs in F;
      [exact F|].
    clear F Hin. induction rs as [|r rs IH]; [reflexivity|].
    cbn [flat_map]. rewrite (passthrough_values _ r Hfields).
    cbn [app]. now rewrite <- IH.
  - intros Hne.
    assert (Hf : appends_fresh (for_each connections (pull stages))
                   (length h) h).
    { apply for_each_fresh. intros c h1 _.
      apply pull_fresh; [|lia|].
      - apply (resolve_ok _ _ Hres).
      - intros ->. destruct (fields v) as [|f fs]; [exfalso; now apply Hne|].
        apply resolve_cons in Hres. destruct Hres as (s & st & Hd & _).
        discriminate Hd. }
    destruct Hf as (ext' & S & B).
    pose proof (f_equal fst E) as E1. cbn [fst] in E1.
    destruct (B out E1) as [_ Hb].
    eapply Forall_impl; [|exact Hb]. cbn. intros; lia.
Qed.

Lemma passthrough_fields_copy_witness :
  exists out ext,
    @validate_connections ucd
      (ConnectionValidator_init (PyNames [u "status"; u "provider"])) [0]
      [create_connection (u "test") (u "20,30,40") []]
    = (Ok out, [create_connection (u "test") (u "20,30,40") []] ++ ext)
    /\ Forall2
         (stored ([create_connection (u "test") (u "20,30,40") []] ++ ext))
         out [create_connection (u "test") (u "20,30,40") []].
Proof.
  destruct (passthrough_fields_copy ucd
              (ConnectionValidator_init (PyNames [u "status"; u "provider"]))
              [0] [create_connection (u "test") (u "20,30,40") []]
              [create_connection (u "test") (u "20,30,40") []])
    as (out & ext & E & F & _).
  - constructor; [left; reflexivity|].
    constructor; [right; right; left; reflexivity|constructor].
  - constructor; [reflexivity|constructor].
  - exists out, ext. split; [exact E|exact F].
Defined.

(** ** The value of the street strategy *)

Section StreetFacts.

Context {U : Unicode}.

Lemma dict_get_in {V} (d : list (pystr * V)) (key : pystr) (v : V) :
  dict_get d key = Some v -> In v (map snd d).
Proof.
  induction d as [|[k w] d IH]; cbn [dict_get map snd In];
    [intros Hd; discriminate Hd|].
  destruct (str_eqb k key).
  - intros H. left. now injection H.
  - intros H. right. now apply IH.
Qed.

Lemma extract_with_label (rules : list (re * pystr)) (name : pystr) :
  match fst (extract_with rules name) with
  | Some ty => In ty (map snd rules)
  | None => True
  end.
Proof.
  induction rules as [|[rx ty] rules IH]; cbn [extract_with map snd In];
    [exact I|].
  destruct (re_search rx name); cbn [fst].
  - now left.
  - destruct (fst (extract_with rules name)); [now right|exact I].
Qed.

Lemma manual_types_are_labels (tn : pystr * pystr) :
  In tn (map snd MANUAL_MAP) -> In (fst tn) (map snd TYPE_MAP).
Proof.
  unfold MANUAL_MAP, TYPE_MAP. cbn [map snd In].
  intros [H|[H|[]]]; rewrite <- H; cbn [fst].
  - do 4 right. left. reflexivity.
  - do 6 right. left. reflexivity.
Qed.

Lemma default_type_is_label : In (u "улица") (map snd TYPE_MAP).
Proof.
  unfold TYPE_MAP. cbn [map snd In]. do 6 right. left. reflexivity.
Qed.

Lemma dict_getitem_in {V} (d : list (pystr * V)) (key : pystr) (v : V) :
  dict_getitem d key = Ok v -> In v (map snd d).
Proof.
  unfold dict_getitem. destruct (dict_get d key) as [w|] eqn:E.
  - intros H. injection H as <-. exact (dict_get_in _ _ _ E).
  - intros Hd. discriminate Hd.
Qed.

Lemma tokenize_manual (default_type name : pystr) :
  dict_contains MANUAL_MAP name = true ->
  exists ty nm : pystr,
    tokenize default_type name = Ok (Some ty, nm)
    /\ In (ty, nm) (map snd MANUAL_MAP).
Proof.
  intros Hin. unfold tokenize. rewrite Hin.
  destruct (dict_getitem_present _ _ Hin) as ([ty nm] & E).
  rewrite E. cbn [obind fst snd]. exists ty, nm.
  split; [reflexivity|]. exact (dict_getitem_in _ _ _ E).
Qed.

Lemma tokenize_rules (default_type name : pystr) :
  dict_contains MANUAL_MAP name = false ->
  exists ty nm : pystr,
    tokenize default_type name = Ok (Some ty, nm)
    /\ (In ty (map snd TYPE_MAP) \/ ty = default_type).
Proof.
  intros Hin. unfold tokenize. rewrite Hin.
  pose proof (extract_with_label TYPE_MAP name) as Hl.
  unfold _extract_type_and_name.
  destruct (extract_with TYPE_MAP name) as [[ty|] nm]; cbn [fst] in Hl.
  - exists ty, (_normalize_name nm). split; [reflexivity|]. now left.
  - exists default_type, (_normalize_name nm).
    split; [reflexivity|]. now right.
Qed.

Lemma tokenize_sources (default_type name : pystr) :
  exists ty nm : pystr,
    tokenize default_type name = Ok (Some ty, nm)
    /\ (In (ty, nm) (map snd MANUAL_MAP)
        \/ In ty (map snd TYPE_MAP)
        \/ ty = default_type).
Proof.
  destruct (dict_contains MANUAL_MAP name) eqn:Hin.
  - destruct (tokenize_manual default_type name Hin) as (ty & nm & E & H).
    exists ty, nm. auto.
  - destruct (tokenize_rules default_type name Hin) as (ty & nm & E & H).
    exists ty, nm. tauto.
Qed.

Lemma tokenize_label (name : pystr) :
  exists ty nm : pystr,
    tokenize (u "улица") name = Ok (Some ty, nm)
    /\ In ty (map snd TYPE_MAP).
Proof.
  destruct (tokenize_sources (u "улица") name) as (ty & nm & E & H).
  exists ty, nm. split; [exact E|].
  destruct H as [H|[H|H]].
  - exact (manual_types_are_labels (ty, nm) H).
  - exact H.
  - rewrite H. exact default_type_is_label.
Qed.

Lemma street_value_shape (street : pystr) :
  exists ty name : pystr,
    validate_street_field street = Ok [Value (ty ++ u " " ++ name)]
    /\ In ty (map snd TYPE_MAP).
Proof.
  destruct (tokenize_label street) as (ty & nm & E & Hl).
  exists ty, nm. split; [|exact Hl].
  unfold validate_street_field, Toponym_new. rewrite E. reflexivity.
Qed.

Lemma street_untyped (street : pystr) :
  dict_contains MANUAL_MAP street = false ->
  Forall (no_match street) TYPE_MAP ->
  validate_street_field street
  = Ok [Value (u "улица" ++ u " " ++ str_title (str_strip street))].
Proof.
  intros Hmanual Hnone.
  unfold validate_street_field, Toponym_new, tokenize.
  rewrite Hmanual. unfold _extract_type_and_name.
  rewrite (extract_no_match _ _ Hnone). reflexivity.
Qed.

End StreetFacts.

(** X9.  The street strategy always returns one value, a type label, a
    space and a name.  The label is one of the eight labels of [TYPE_MAP]
    (the default "улица" is one of them).  Two of them, "поселок" and
    "агрогородок", are not in [SUPPORTED_TYPES] and are returned all the
    same: "пос. Лесной" becomes "поселок Лесной" and "а/г Лесной" becomes
    "агрогородок Лесной".  For a street with no manual override in which
    no rule of [TYPE_MAP] is found, the value is "улица", a space, and the
    trimmed street in title case. *)
Theorem street_value_is_label_and_name (U : Unicode) :
  (forall street : pystr,
      exists ty name : pystr,
        @validate_street_field U street = Ok [Value (ty ++ u " " ++ name)]
        /\ In ty (map snd (@TYPE_MAP U)))
  /\ (forall street : pystr,
         dict_contains MANUAL_MAP street = false ->
         Forall (no_match street) (@TYPE_MAP U) ->
         @validate_street_field U street
         = Ok [Value (u "улица" ++ u " " ++ str_title (str_strip street))])
  /\ map snd (@TYPE_MAP U)
     = [u "проезд"; u "поселок"; u "микрорайон"; u "агрогородок";
        u "переулок"; u "бульвар"; u "улица"; u "проспект"]
  /\ existsb (str_eqb (u "поселок")) SUPPORTED_TYPES = false
  /\ existsb (str_eqb (u "агрогородок")) SUPPORTED_TYPES = false
  /\ @validate_street_field ucd (u "пос. Лесной")
     = Ok [Value (u "поселок" ++ u " " ++ u "Лесной")]
  /\ @validate_street_field ucd (u "а/г Лесной")
     = Ok [Value (u "агрогородок" ++ u " " ++ u "Лесной")].
Proof.
  split; [exact street_value_shape|].
  split; [exact street_untyped|].
  split; [reflexivity|].
  repeat split; vm_compute; reflexivity.
Qed.

Lemma street_value_is_label_and_name_witness :
  @validate_street_field ucd (u "  ленина ")
  = Ok [Value (u "улица" ++ u " "
               ++ @str_title ucd (@str_strip ucd (u "  ленина ")))].
Proof.
  apply (proj1 (proj2 (street_value_is_label_and_name ucd))).
  - vm_compute. reflexivity.
  - repeat (constructor; [vm_compute; reflexivity|]). constructor.
Defined.

(** ** Values that the building-number pattern accepts *)

Section GreedyFacts.

Context {R : Type}.

Lemma star_run_stop (p : cp -> bool) (k : kont R) (i : nat) (s : pystr)
  (g : groups) :
  stops p s -> star_run p k i s g = k i s g.
Proof.
  destruct s as [|c s]; cbn [stops star_run]; [reflexivity|].
  intros H. now rewrite H.
Qed.

Lemma star_run_greedy (p : cp -> bool) (k : kont R) (l s : pystr)
  (g : groups) (x : R) :
  forall i,
    forallb p l = true -> stops p s ->
    k (i + length l) s g = Some x ->
    star_run p k i (l ++ s) g = Some x.
Proof.
  induction l as [|c l IH]; intros i Hall Hstop Hk.
  - cbn [app length] in *. rewrite Nat.add_0_r in Hk.
    now rewrite star_run_stop.
  - cbn [forallb] in Hall. apply andb_prop in Hall. destruct Hall as [Hc Hl].
    cbn [app star_run]. rewrite Hc.
    rewrite (IH (S i) Hl Hstop); [reflexivity|].
    cbn [length] in Hk. now replace (S i + length l) with (i + S (length l))
      by lia.
Qed.

Lemma group_plus_greedy (name : string) (p : cp -> bool) (k : kont R)
  (l s : pystr) (i : nat) (g : groups) (x : R) :
  l <> [] -> forallb p l = true -> stops p s ->
  k (i + length l) s ((name, l) :: g) = Some x ->
  re_run (Group name (Plus p)) i (l ++ s) g k = Some x.
Proof.
  intros Hne Hall Hstop Hk.
  destruct l as [|c l]; [now destruct Hne|].
  cbn [forallb] in Hall. apply andb_prop in Hall. destruct Hall as [Hc Hl].
  cbn [re_run app]. rewrite Hc.
  apply star_run_greedy; [exact Hl|exact Hstop|].
  cbv beta. replace (S i + length l - i) with (S (length l)) by lia.
  cbn [firstn]. rewrite firstn_app, Nat.sub_diag, firstn_all. cbn [firstn].
  rewrite app_nil_r. cbn [length] in Hk.
  now replace (S i + length l) with (i + S (length l)) by lia.
Qed.

Lemma opt_comma_greedy (k : kont R) (comma s : pystr) (i : nat) (g : groups)
  (x : R) :
  (comma = [] \/ comma = [44%N]) ->
  (comma = [] -> stops (cp_eqb 44) s) ->
  k (i + length comma) s g = Some x ->
  re_run (Opt (Chr (cp_eqb 44))) i (comma ++ s) g k = Some x.
Proof.
  intros [->| ->] Hstop Hk; cbn [app length] in *.
  - rewrite Nat.add_0_r in Hk. cbn [re_run].
    specialize (Hstop eq_refl).
    destruct s as [|c s]; [exact Hk|]. cbn [stops] in Hstop.
    rewrite Hstop. exact Hk.
  - cbn [re_run]. replace (cp_eqb 44 44) with true by reflexivity.
    replace (S i) with (i + 1) by lia. now rewrite Hk.
Qed.

Lemma group_star_greedy (name : string) (p : cp -> bool) (r2 : re)
  (k : kont R) (l s : pystr) (i : nat) (g : groups) (x : R) :
  forallb p l = true -> stops p s ->
  k (i + length l) s ((name, l) :: g) = Some x ->
  re_run (Group name (Alt (Star p) r2)) i (l ++ s) g k = Some x.
Proof.
  intros Hall Hstop Hk. cbn [re_run].
  rewrite (star_run_greedy p _ l s g x i Hall Hstop); [reflexivity|].
  cbv beta. replace (i + length l - i) with (length l) by lia.
  rewrite firstn_app, Nat.sub_diag, firstn_all. cbn [firstn].
  now rewrite app_nil_r.
Qed.

End GreedyFacts.

Section BuildingComplete.

Context {U : Unicode}.

Lemma building_tail_greedy (b : pystr) (i : nat) (g : groups) :
  b <> [] -> forallb re_word b = true ->
  re_run building_tail i b g finish
  = Some (MatchObj 0 (i + length b) (("building"%string, b) :: g)).
Proof.
  intros Hne Hall.
  change (re_run (Group "building" (Plus re_word)) i b g
            (fun i' s' g' => re_run Eol i' s' g' finish)
          = Some (MatchObj 0 (i + length b) (("building"%string, b) :: g))).
  rewrite <- (app_nil_r b) at 1.
  apply group_plus_greedy; [exact Hne|exact Hall|exact I|reflexivity].
Qed.

Lemma building_match_complete (number comma delim building : pystr) :
  number <> [] -> forallb re_digit number = true ->
  (comma = [] \/ comma = [44%N]) ->
  forallb delimiter_class delim = true ->
  building <> [] -> forallb re_word building = true ->
  stops re_digit (comma ++ delim ++ building) ->
  (comma = [] -> stops (cp_eqb 44) (delim ++ building)) ->
  stops delimiter_class building ->
  exists e,
    re_match RE_BUILDING_NUMBER (number ++ comma ++ delim ++ building)
    = Some (MatchObj 0 e
              [("building"%string, building); ("delimiter"%string, delim);
               ("house_number"%string, number)]).
Proof.
  intros Hn Hdigits Hcomma Hdelim Hb Hword Sd Sc Sb.
  exists (0 + length number + length comma + length delim + length building).
  unfold re_match. rewrite RE_BUILDING_NUMBER_eq.
  change (re_run
            (Group "house_number" (Plus re_digit)) 0
            (number ++ comma ++ delim ++ building) []
            (fun i1 s1 g1 =>
               re_run (Opt (Chr (cp_eqb 44))) i1 s1 g1
                 (fun i2 s2 g2 =>
                    re_run
                      (Group "delimiter"
                         (Alt (Star delimiter_class) building_marker))
                      i2 s2 g2
                      (fun i3 s3 g3 => re_run building_tail i3 s3 g3 finish)))
          = Some (MatchObj 0
                    (0 + length number + length comma + length delim
                     + length building)
                    [("building"%string, building);
                     ("delimiter"%string, delim);
                     ("house_number"%string, number)])).
  apply group_plus_greedy; [exact Hn|exact Hdigits|exact Sd|].
  cbv beta.
  apply opt_comma_greedy; [exact Hcomma|exact Sc|].
  cbv beta.
  apply group_star_greedy; [exact Hdelim|exact Sb|].
  cbv beta.
  apply building_tail_greedy; [exact Hb|exact Hword].
Qed.

Lemma count_forallb (p : cp -> bool) (l : pystr) :
  p 44%N = false -> forallb p l = true -> commas l = 0.
Proof.
  intros Hp. unfold commas.
  induction l as [|c l IH]; [reflexivity|].
  cbn [forallb count_occ]. intros H. apply andb_prop in H.
  destruct H as [Hc Hl].
  destruct (N.eq_dec c 44) as [->|_]; [congruence|now apply IH].
Qed.

Lemma commas_app (a b : pystr) : commas (a ++ b) = commas a + commas b.
Proof. unfold commas. apply count_occ_app. Qed.

Lemma commas_in (s : pystr) : 1 <= commas s -> In 44%N s.
Proof.
  unfold commas. intros H. apply (count_occ_In N.eq_dec). lia.
Qed.

Lemma delimiter_no_comma (delim : pystr) :
  re_space 44%N = false -> delimiter_ok delim -> commas delim = 0.
Proof.
  intros Hs [H|(k & sp & Hk & Hsp & ->)].
  - apply (count_forallb delimiter_class); [|exact H].
    unfold delimiter_class. now rewrite Hs.
  - destruct Hk as [->| ->]; destruct Hsp as [->| ->]; reflexivity.
Qed.

Lemma matched_commas (house : pystr) (m : re_match_obj) :
  re_space 44%N = false -> re_word 44%N = false ->
  re_match RE_BUILDING_NUMBER house = Some m ->
  commas house <= 1.
Proof.
  intros Hs Hw Hm.
  destruct (building_match_shape house m Hm)
    as (hn & comma & delim & b & nl & -> & _ & Hdig & Hcomma & Hdelim
        & _ & Hword & Hnl & _).
  rewrite !commas_app.
  rewrite (count_forallb re_digit hn); [|now rewrite re_digit_ascii|exact Hdig].
  rewrite (delimiter_no_comma delim Hs Hdelim).
  rewrite (count_forallb re_word b Hw Hword).
  destruct Hcomma as [->| ->]; destruct Hnl as [->| ->]; cbn; lia.
Qed.

Lemma comma_not_decimal (house : pystr) :
  In 44%N house -> str_isdecimal house = false.
Proof.
  intros Hin. unfold str_isdecimal.
  rewrite (forallb_false chr_isdecimal 44%N house Hin);
    [apply andb_false_r|now rewrite isdecimal_ascii].
Qed.

Lemma two_commas_values (house : pystr) :
  re_space 44%N = false -> re_word 44%N = false ->
  2 <= commas house ->
  is_for_artificial_person house = false ->
  validate_house_field house = Ok (map Value (house_segments_spec house)).
Proof.
  intros Hs Hw Hc Ha.
  assert (Hin : In 44%N house) by (apply commas_in; lia).
  apply house_commas.
  - now apply comma_not_decimal.
  - destruct (re_match RE_BUILDING_NUMBER house) as [m|] eqn:Hm;
      [|reflexivity].
    pose proof (matched_commas house m Hs Hw Hm). lia.
  - exact Ha.
  - rewrite u_comma. now apply str_in_single.
Qed.

Lemma str_split_length (s : pystr) :
  length (str_split 44 s) = S (commas s).
Proof.
  unfold commas. induction s as [|c s IH]; [reflexivity|].
  cbn [str_split count_occ]. unfold cp_eqb.
  destruct (N.eqb_spec c 44) as [->|Hne].
  - cbn [length]. rewrite IH. now destruct (N.eq_dec 44 44).
  - destruct (N.eq_dec c 44) as [E|_]; [now destruct Hne|].
    destruct (str_split 44 s) as [|seg segs]; cbn [length] in *;
      [discriminate IH|exact IH].
Qed.

Lemma segments_bound (house : pystr) :
  length (house_segments_spec house) <= S (commas house).
Proof.
  unfold house_segments_spec.
  etransitivity; [apply filter_length_le|].
  now rewrite length_map, str_split_length.
Qed.

Lemma ok_inj {A} (l fs : A) : Ok l = Ok fs -> l = fs.
Proof. intros H. now injection H. Qed.

Lemma house_values_bound (house : pystr) (fs : list candidate) :
  validate_house_field house = Ok fs ->
  length fs <= S (commas house) /\ (fs = [] -> In 44%N house).
Proof.
  destruct (str_isdecimal house) eqn:Hd.
  { rewrite (house_decimal house Hd). intros H. apply ok_inj in H.
    subst fs. split; [cbn [length]; lia|intros E; discriminate E]. }
  destruct (re_match RE_BUILDING_NUMBER house) as [m|] eqn:Hm.
  { rewrite (house_building house m Hd Hm). intros H. apply ok_inj in H.
    subst fs. split; [cbn [length]; lia|intros E; discriminate E]. }
  destruct (is_for_artificial_person house) eqn:Ha.
  { rewrite (house_artificial house Hd Hm Ha). intros H. apply ok_inj in H.
    subst fs. split; [cbn [length]; lia|intros E; discriminate E]. }
  destruct (str_in (u ",") house) eqn:Hc.
  - rewrite (house_commas house Hd Hm Ha Hc). intros H. apply ok_inj in H.
    subst fs. rewrite length_map. split; [apply segments_bound|].
    intros _. rewrite u_comma in Hc.
    destruct (in_dec N.eq_dec 44%N house) as [Hin|Hout]; [exact Hin|].
    pose proof (str_in_head_absent 44%N [] house Hout) as Hx.
    cut (true = false); [intros E; discriminate E|].
    rewrite <- Hc. exact Hx.
  - unfold validate_house_field. rewrite Hd, Hm, Ha, Hc.
    intros H. apply ok_inj in H.
    subst fs. split; [cbn [length]; lia|intros E; discriminate E].
Qed.

End BuildingComplete.

(** ** Theorems on the house strategy *)

(** X10.  The building-number branch takes every value of the form it is
    written for: one or more digits, an optional comma, a run of '-', '/'
    and white space, and one or more word characters, where each greedy
    repetition of the pattern stops at the end of its part.  Such a value,
    unless it is purely decimal, becomes "{digits} (корпус {word
    characters})": so a value with exactly one comma between two numbers,
    like "20,30", is not split in two, and "29а" becomes "29 (корпус а)". *)
Theorem building_form_is_rewritten (U : Unicode)
  (number comma delim building : pystr) :
  number <> [] -> forallb re_digit number = true ->
  (comma = [] \/ comma = [44%N]) ->
  forallb delimiter_class delim = true ->
  building <> [] -> forallb re_word building = true ->
  stops re_digit (comma ++ delim ++ building) ->
  (comma = [] -> stops (cp_eqb 44) (delim ++ building)) ->
  stops delimiter_class building ->
  str_isdecimal (number ++ comma ++ delim ++ building) = false ->
  @validate_house_field U (number ++ comma ++ delim ++ building)
  = Ok [Value (number ++ u " (корпус " ++ building ++ u ")")].
Proof.
  intros Hn Hdigits Hcomma Hdelim Hb Hword Sd Sc Sb Hdec.
  destruct (building_match_complete number comma delim building
              Hn Hdigits Hcomma Hdelim Hb Hword Sd Sc Sb) as (e & Hm).
  rewrite (house_building _ _ Hdec Hm). reflexivity.
Qed.

Lemma building_form_is_rewritten_witness :
  @validate_house_field ucd (u "20" ++ [44%N] ++ [] ++ u "30")
  = Ok [Value (u "20" ++ u " (корпус " ++ u "30" ++ u ")")]
  /\ @validate_house_field ucd (u "29" ++ [] ++ [] ++ u "а")
     = Ok [Value (u "29" ++ u " (корпус " ++ u "а" ++ u ")")].
Proof.
  split.
  - apply (building_form_is_rewritten ucd (u "20") [44%N] [] (u "30")).
    + intros Hd. vm_compute in Hd. discriminate Hd.
    + vm_compute. reflexivity.
    + right. reflexivity.
    + reflexivity.
    + intros Hd. vm_compute in Hd. discriminate Hd.
    + vm_compute. reflexivity.
    + vm_compute. reflexivity.
    + intros Hd. discriminate Hd.
    + vm_compute. reflexivity.
    + vm_compute. reflexivity.
  - apply (building_form_is_rewritten ucd (u "29") [] [] (u "а")).
    + intros Hd. vm_compute in Hd. discriminate Hd.
    + vm_compute. reflexivity.
    + left. reflexivity.
    + reflexivity.
    + intros Hd. vm_compute in Hd. discriminate Hd.
    + vm_compute. reflexivity.
    + vm_compute. reflexivity.
    + intros _. vm_compute. reflexivity.
    + vm_compute. reflexivity.
    + vm_compute. reflexivity.
Defined.

(** X11.  Two commas are enough to split: when the tables class the comma
    neither as white space nor as a word character, a house value with at
    least two commas that is not for an artificial person never matches
    the building-number pattern, and the strategy returns its
    comma-separated segments, spaces removed and empty segments
    discarded. *)
Theorem two_commas_always_split (U : Unicode) (house : pystr) :
  re_space 44%N = false -> re_word 44%N = false ->
  2 <= commas house ->
  is_for_artificial_person house = false ->
  re_match RE_BUILDING_NUMBER house = None
  /\ @validate_house_field U house
     = Ok (map Value (house_segments_spec house)).
Proof.
  intros Hs Hw Hc Ha. split.
  - destruct (re_match RE_BUILDING_NUMBER house) as [m|] eqn:Hm;
      [|reflexivity].
    pose proof (matched_commas house m Hs Hw Hm). lia.
  - now apply two_commas_values.
Qed.

Lemma two_commas_always_split_witness :
  @validate_house_field ucd (u "1а, 3б, 5-7")
  = Ok (map Value (house_segments_spec (u "1а, 3б, 5-7"))).
Proof.
  apply (two_commas_always_split ucd (u "1а, 3б, 5-7")).
  - reflexivity.
  - reflexivity.
  - vm_compute. lia.
  - vm_compute. reflexivity.
Defined.

(** X12.  The house strategy never raises and returns at most one value
    more than the house value has commas; it returns no value only for a
    house value that contains a comma. *)
Theorem house_values_bounded (U : Unicode) (house : pystr) :
  exists fs,
    @validate_house_field U house = Ok fs
    /\ length fs <= S (commas house)
    /\ (fs = [] -> In 44%N house).
Proof.
  destruct (@validate_house_field_total U house) as (fs & E).
  exists fs. split; [exact E|]. now apply house_values_bound.
Qed.

(** ** Theorem on the city strategy *)

Section CityFacts.

Context {U : Unicode}.

Lemma fold_parts_absent (parts : list pystr) (city : pystr) :
  Forall (fun part => str_in part city = false) parts ->
  fold_left
    (fun city part =>
       if str_in part city then str_replace part [] city else city)
    parts city
  = city.
Proof.
  induction 1 as [|part parts Hp _ IH]; [reflexivity|].
  cbn [fold_left]. rewrite Hp. exact IH.
Qed.

Lemma city_plain (city : pystr) :
  endswith (u " п") city = false ->
  Forall (fun part => str_in part city = false) CITY_PARTS_TO_EXCLUDE ->
  validate_city_field city
  = Ok [Value (str_strip (str_title (str_lower city)))].
Proof.
  intros He Hp. unfold validate_city_field. rewrite He.
  cbv zeta. now rewrite (fold_parts_absent _ _ Hp).
Qed.

End CityFacts.

(** X13.  A city that does not end in " п" and contains none of the parts
    of [CITY_PARTS_TO_EXCLUDE] is only re-cased and trimmed: its value is
    the city in lower case, then title case, then without the white space
    at its ends. *)
Theorem plain_city_is_recased (U : Unicode) (city : pystr) :
  endswith (u " п") city = false ->
  Forall (fun part => str_in part city = false) CITY_PARTS_TO_EXCLUDE ->
  @validate_city_field U city
  = Ok [Value (str_strip (str_title (str_lower city)))].
Proof.
  intros He Hp. now apply city_plain.
Qed.

Lemma plain_city_is_recased_witness :
  @validate_city_field ucd (u " новая ПОЛЯНА ")
  = Ok [Value (@str_strip ucd
                 (@str_title ucd (@str_lower ucd (u " новая ПОЛЯНА "))))].
Proof.
  apply (plain_city_is_recased ucd (u " новая ПОЛЯНА ")).
  - vm_compute. reflexivity.
  - repeat (constructor; [vm_compute; reflexivity|]). constructor.
Defined.
